(** * MCP-MKT: the HubSpot MCP server, session routing and tool handlers

    A shallow embedding of the two server programs of the repository:
    the 1.2.0 server (eleven [hubspot_*] tools, result envelopes) and the
    1.0.0 [server.js] (two tools, raw pass-through).  Both share the same
    Express routes [/sse] and [/messages] over the object [transports].

    Conventions.
    - A JS object used as a dictionary with string keys chosen at run time
      ([transports]) is a [gmap string _] of its own properties, with the
      properties it inherits from [Object.prototype] written out.
    - JS values that travel through the handlers (request bodies, parsed
      responses, envelopes) are the inductive [Value]; an object is the
      list of its properties in creation order.
    - [fetch] is an oracle: the remote answers each request as a function
      of the requests issued before it.  A handler is a computation in the
      monad [M], which threads the trace of calls and may throw.
    - The [log.*] calls write to the logger only and are left out. *)

From stdpp Require Import base strings list gmap pretty.
From Stdlib Require Import ZArith Lia Ascii.

Open Scope Z_scope.
Open Scope string_scope.
Open Scope list_scope.

Set Warnings "-register-all".

(** ** JS values *)

Module JS.

Inductive Value : Type :=
| VUndefined
| VNull
| VBool (b : bool)
| VNum (n : Z)
| VStr (s : string)
| VArr (items : list Value)
| VObj (props : list (string * Value)).

(** ToBoolean *)
Definition truthy (v : Value) : bool :=
  match v with
  | VUndefined | VNull => false
  | VBool b => b
  | VNum n => negb (n =? 0)%Z
  | VStr s => negb (String.eqb s "")
  | VArr _ | VObj _ => true
  end.

(** The test of [a ?? b] and of [a?.p]: [a] is null or undefined. *)
Definition nullish (v : Value) : bool :=
  match v with
  | VUndefined | VNull => true
  | _ => false
  end.

(** [a ?? b] *)
Definition coalesce (a b : Value) : Value := if nullish a then b else a.

(** [a || b] *)
Definition or_else (a b : Value) : Value := if truthy a then a else b.

(** Properties of an object: a later definition of a key replaces the
    value of the earlier one, as assignment and [JSON.parse] do. *)
Fixpoint obj_get (k : string) (props : list (string * Value)) : option Value :=
  match props with
  | [] => None
  | (k', v) :: rest =>
      match obj_get k rest with
      | Some w => Some w
      | None => if String.eqb k k' then Some v else None
      end
  end.

Definition has_key (k : string) (props : list (string * Value)) : bool :=
  existsb (fun kv => String.eqb k kv.1) props.

(** [o[k] = v]: replaces the value in place, or creates the property. *)
Fixpoint obj_set (k : string) (v : Value) (props : list (string * Value))
  : list (string * Value) :=
  match props with
  | [] => [(k, v)]
  | (k', w) :: rest =>
      if String.eqb k k' then
        if has_key k rest then (k', w) :: obj_set k v rest
        else (k', v) :: rest
      else (k', w) :: obj_set k v rest
  end.

Definition chars (s : string) : list Value :=
  map (fun c => VStr (String c EmptyString)) (String.list_ascii_of_string s).

Definition index_key (i : nat) : string := pretty i.

(** The own enumerable properties that [{...v}] copies. *)
Definition own_props (v : Value) : list (string * Value) :=
  match v with
  | VObj props => props
  | VArr items => imap (fun i x => (index_key i, x)) items
  | VStr s => imap (fun i x => (index_key i, x)) (chars s)
  | _ => []
  end.

(** [{ ...target, ...v }] *)
Definition spread_into (target : list (string * Value)) (v : Value)
  : list (string * Value) :=
  fold_left (fun acc kv => obj_set kv.1 kv.2 acc) (own_props v) target.

(** [v?.name] for a name that is neither an array index nor [length]
    ([results], [paging]): only an object can have it. *)
Definition member (name : string) (v : Value) : Value :=
  match v with
  | VObj props => default VUndefined (obj_get name props)
  | _ => VUndefined
  end.

(** [v?.length] *)
Definition length_of (v : Value) : Value :=
  match v with
  | VArr items => VNum (Z.of_nat (length items))
  | VStr s => VNum (Z.of_nat (String.length s))
  | VObj props => default VUndefined (obj_get "length" props)
  | _ => VUndefined
  end.

(** What [f(...v)] iterates over; [None] when [v] is not iterable and the
    call throws a TypeError. *)
Definition iterate (v : Value) : option (list Value) :=
  match v with
  | VArr items => Some items
  | VStr s => Some (chars s)
  | _ => None
  end.

(** [String(n)] and [`${n}`] for an integer below 10^21 in magnitude. *)
Definition Number_toString (n : Z) : string := pretty n.

(** [arr.join(",")] on an array of strings *)
Fixpoint join (sep : string) (l : list string) : string :=
  match l with
  | [] => ""
  | [s] => s
  | s :: rest => s +:+ sep +:+ join sep rest
  end.

(** [arr.slice(i, j)] for [0 <= i <= j] *)
Definition slice {A} (i j : nat) (arr : list A) : list A :=
  take (j - i)%nat (drop i arr).

End JS.

(** ** The session registry and its two routes *)

Module Registry.

(** An [SSEServerTransport]: the SDK gives it a fresh [sessionId]
    ([randomUUID()]); [stream] names the response it writes to. *)
Record Transport : Type := { sessionId : string; stream : nat }.

Definition is_hex (c : ascii) : bool :=
  let n := nat_of_ascii c in
  ((48 <=? n) && (n <=? 57) || (97 <=? n) && (n <=? 102))%nat.

Definition is_dash (c : ascii) : bool := (nat_of_ascii c =? 45)%nat.

(** The shape of [randomUUID()]: 8-4-4-4-12 lower-case hex digits. *)
Definition is_uuid (s : string) : bool :=
  let cs := String.list_ascii_of_string s in
  (length cs =? 36)%nat &&
  forallb (fun ic => if bool_decide (ic.1 ∈ [8; 13; 18; 23]%nat)
                     then is_dash ic.2 else is_hex ic.2)
          (imap pair cs).

(** The names every object literal inherits from [Object.prototype];
    each is bound to a function or, for [__proto__], to the prototype
    object itself, hence truthy, and none has a [handlePostMessage]. *)
Definition Object_prototype : list string :=
  [ "constructor"; "__defineGetter__"; "__defineSetter__"; "hasOwnProperty";
    "__lookupGetter__"; "__lookupSetter__"; "isPrototypeOf";
    "propertyIsEnumerable"; "toString"; "valueOf"; "__proto__";
    "toLocaleString" ].

Definition inherited (k : string) : bool := bool_decide (k ∈ Object_prototype).

(** What [transports[k]] evaluates to. *)
Inductive Found : Type :=
| FTransport (t : Transport)
| FInherited (name : string)
| FUndefined.

Definition get (transports : gmap string Transport) (k : string) : Found :=
  match transports !! k with
  | Some t => FTransport t
  | None => if inherited k then FInherited k else FUndefined
  end.

Definition found_truthy (f : Found) : bool :=
  match f with
  | FTransport _ | FInherited _ => true
  | FUndefined => false
  end.

(** [app.get("/sse")]: [transports[transport.sessionId] = transport].
    The key is the UUID the SDK generated, so the assignment creates or
    replaces an own property. *)
Definition sse_open (transport : Transport) (transports : gmap string Transport)
  : gmap string Transport :=
  <[sessionId transport := transport]> transports.

(** [res.on("close")]: [delete transports[transport.sessionId]]. *)
Definition sse_close (transport : Transport) (transports : gmap string Transport)
  : gmap string Transport :=
  delete (sessionId transport) transports.

(** How a request to [/messages] ends. *)
Inductive Outcome : Type :=
| Send (status : Z) (body : string)
| HandlePostMessage (t : Transport) (body : JS.Value)
| TypeError_not_a_function (name : string).

(** [app.post("/messages")]; [sessionId] is the property key that
    [req.query.sessionId] denotes. *)
Definition post_messages (transports : gmap string Transport)
    (sessionId : string) (body : JS.Value) : Outcome :=
  let transport := get transports sessionId in
  if negb (found_truthy transport) then
    Send 400 "No transport found for sessionId"
  else
    match transport with
    | FTransport t => HandlePostMessage t body
    | FInherited name => TypeError_not_a_function name
    | FUndefined => Send 400 "No transport found for sessionId"
    end.

(** The transports whose handler a request reached. *)
Definition handlers_invoked (o : Outcome) : list Transport :=
  match o with
  | HandlePostMessage t _ => [t]
  | _ => []
  end.

(** The life of the registry: streams open and close. *)
Inductive Event : Type :=
| Open (t : Transport)
| Close (t : Transport).

Definition step (transports : gmap string Transport) (e : Event)
  : gmap string Transport :=
  match e with
  | Open t => sse_open t transports
  | Close t => sse_close t transports
  end.

Definition run (events : list Event) : gmap string Transport :=
  fold_left step events ∅.

(** The event is about the session identifier [sid]. *)
Definition concerns (sid : string) (e : Event) : Prop :=
  match e with Open t | Close t => sessionId t = sid end.

End Registry.

(** ** Remote calls: requests, responses and the handler monad *)

Module Net.

Import JS.

Inductive Method : Type := GET | POST.

(** The text [JSON.stringify(v)], kept as the value it serialises. *)
Inductive Text : Type := JSON_stringify (v : Value).

(** What [fetch] is called with.  [url] is the string the URL is parsed
    from, kept as written: the parser's work on it (dot segments, a query
    or fragment inside the string) is not done here.  [searchParams] are
    the parameters [url.searchParams.set] puts on that URL, in order;
    they are its whole query when the string carries none of its own. *)
Record Request : Type := {
  url : string;
  searchParams : list (string * string);
  method : Method;
  headers : list (string * string);
  body : option Text
}.

(** The outcome of [JSON.parse(text)]; [str] is [String(e)] of the
    SyntaxError it throws. *)
Inductive Parsed : Type :=
| Parses (v : Value)
| SyntaxError (str : string).

(** A response with its body read: [res.status], [await res.text()] and
    what [JSON.parse] makes of that text. *)
Record Response : Type := { status : Z; text : string; json : Parsed }.

(** [res.ok] *)
Definition ok (res : Response) : bool :=
  (200 <=? status res)%Z && (status res <? 300)%Z.

(** [fetch] resolves with a response, or rejects (so does reading the
    body) with an error [e] such that [String(e) = str]. *)
Inductive FetchOutcome : Type :=
| Rejects (str : string)
| Responds (res : Response).

(** What a handler can throw: [new Error(message)], or an error raised by
    the runtime or by [fetch], known by its [String(e)]. *)
Inductive Thrown : Type :=
| Error (message : string)
| Raised (str : string).

(** [String(e)] *)
Definition String_of (e : Thrown) : string :=
  match e with
  | Error message => "Error: " +:+ message
  | Raised str => str
  end.

Definition Trace : Type := list (Request * FetchOutcome).

(** A computation issues calls, recorded in the trace, and returns or
    throws. *)
Definition M (A : Type) : Type := Trace → (Thrown + A) * Trace.

Definition ret {A} (a : A) : M A := λ tr, (inr a, tr).

Definition throw {A} (e : Thrown) : M A := λ tr, (inl e, tr).

Definition bind {A B} (m : M A) (k : A → M B) : M B :=
  λ tr, match m tr with
        | (inl e, tr') => (inl e, tr')
        | (inr a, tr') => k a tr'
        end.

(** [try { m } catch (e) { handler(e) }] *)
Definition try_catch {A} (m : M A) (handler : Thrown → M A) : M A :=
  λ tr, match m tr with
        | (inl e, tr') => handler e tr'
        | (inr a, tr') => (inr a, tr')
        end.

(** The remote API: its answer to a request, given the requests that were
    issued before. *)
Definition Remote : Type := list Request → Request → FetchOutcome.

(** [await fetch(...)] followed by [await res.text()] *)
Definition fetch (remote : Remote) (req : Request) : M Response :=
  λ tr, let o := remote (map fst tr) req in
        match o with
        | Rejects str => (inl (Raised str), tr ++ [(req, o)])
        | Responds res => (inr res, tr ++ [(req, o)])
        end.

(** A tool result: [{ content: [...] }]. *)
Inductive ContentItem : Type :=
| TextItem (text : Text)
| JsonItem (json : Value).

Record ToolResult : Type := { content : list ContentItem }.

End Net.

Declare Scope handler_scope.
Delimit Scope handler_scope with handler.
Notation "'let*' x ':=' m 'in' k" := (Net.bind m (λ x, k))
  (at level 10, x name, m at level 100, k at level 200) : handler_scope.

(** ** The 1.2.0 server: helpers and the eleven tools *)

Module Hubspot.

Import JS Net.

Section Handlers.

Variable HUBSPOT_TOKEN : string.
Variable remote : Remote.
(** [String(e)] of the TypeError that spreading a non-iterable throws. *)
Variable not_iterable : string.

Local Open Scope handler_scope.

(** [label ? ... : ...] on a label that is a string or [null] *)
Definition label_truthy (label : option string) : bool :=
  match label with
  | Some l => negb (String.eqb l "")
  | None => false
  end.

(** [asText(obj, label)].  [JSON.stringify] throws on cyclic values and
    BigInts only, which a [Value] cannot be, so the [catch] branch is
    never taken. *)
Definition asText (obj : Value) (label : option string) : ToolResult :=
  let payload :=
    match label with
    | Some l => if label_truthy label
                then VObj [("label", VStr l); ("data", obj)] else obj
    | None => obj
    end in
  {| content := [TextItem (JSON_stringify payload)] |}.

Definition api (path : string) : string := "https://api.hubapi.com" +:+ path.

Definition post_headers : list (string * string) :=
  [("Authorization", "Bearer " +:+ HUBSPOT_TOKEN);
   ("Content-Type", "application/json")].

Definition get_headers : list (string * string) :=
  [("Authorization", "Bearer " +:+ HUBSPOT_TOKEN)].

Definition post_request (path : string) (body : Value) : Request :=
  {| url := api path; searchParams := []; method := POST;
     headers := post_headers;
     body := Some (JSON_stringify (or_else body (VObj []))) |}.

(** The tail of [hsPOST] and [hsGET]: throw on a non-2xx status,
    otherwise the parsed body, or the text itself when it is not JSON. *)
Definition parsed_or_text (res : Response) : M Value :=
  if negb (ok res) then
    throw (Error ("HubSpot " +:+ Number_toString (status res)
                  +:+ " " +:+ text res))
  else
    match json res with
    | Parses v => ret v
    | SyntaxError _ => ret (VStr (text res))
    end.

Definition hsPOST (path : string) (body : Value) : M Value :=
  let* res := fetch remote (post_request path body) in
  parsed_or_text res.

(** The values of a query: undefined, [null], a string, a number.  The
    handlers pass [after] (a string or undefined), [limit] (a number) and
    [properties.join(",")] (a string). *)
Inductive QueryValue : Type :=
| QUndefined
| QNull
| QStr (s : string)
| QNum (n : Z).

(** [v !== undefined && v !== null && v !== ""] *)
Definition query_keeps (v : QueryValue) : bool :=
  match v with
  | QUndefined => false
  | QNull => false
  | QStr s => negb (String.eqb s "")
  | QNum _ => true
  end.

(** [String(v)] *)
Definition query_String (v : QueryValue) : string :=
  match v with
  | QUndefined => "undefined"
  | QNull => "null"
  | QStr s => s
  | QNum n => Number_toString n
  end.

(** [url.searchParams.set(k, v)] *)
Fixpoint params_set (k v : string) (params : list (string * string))
  : list (string * string) :=
  match params with
  | [] => [(k, v)]
  | (k', w) :: rest =>
      if String.eqb k k' then (k', v) :: filter (λ kv, kv.1 ≠ k) rest
      else (k', w) :: params_set k v rest
  end.

Definition get_request (path : string) (query : list (string * QueryValue))
  : Request :=
  {| url := api path;
     searchParams :=
       fold_left (λ params kv,
                    if query_keeps kv.2
                    then params_set kv.1 (query_String kv.2) params
                    else params) query [];
     method := GET; headers := get_headers; body := None |}.

Definition hsGET (path : string) (query : list (string * QueryValue))
  : M Value :=
  let* res := fetch remote (get_request path query) in
  parsed_or_text res.

(** [chunk(arr, size)]: the loop runs while [i < arr.length]; the fuel
    [arr.length] covers every iteration when [size >= 1]. *)
Fixpoint chunk_loop {A} (fuel : nat) (arr : list A) (size i : nat)
    (out : list (list A)) : list (list A) :=
  match fuel with
  | O => out
  | S fuel' =>
      if (i <? length arr)%nat
      then chunk_loop fuel' arr size (i + size)
             (out ++ [slice i (i + size) arr])
      else out
  end.

Definition chunk {A} (arr : list A) (size : nat) : list (list A) :=
  chunk_loop (length arr) arr size 0 [].

(** The default of [size] *)
Definition chunk_size : nat := 90.

(** ceil(n / size), the number of groups of [n] elements *)
Definition ceil_div (n size : nat) : nat := ((n + size - 1) / size)%nat.

(** The group with index [j] counted from position [i]:
    [arr.slice(i + j * size, i + (j + 1) * size)]. *)
Definition group_at {A} (arr : list A) (size i j : nat) : list A :=
  slice (i + j * size) (i + S j * size) arr.

(** *** Request bodies *)

Definition strings (l : list string) : Value := VArr (map VStr l).

Definition filter_on (propertyName operator value : string) : Value :=
  VObj [("propertyName", VStr propertyName); ("operator", VStr operator);
        ("value", VStr value)].

(** An optional string argument is truthy when present and not empty. *)
Definition given (arg : option string) : bool :=
  match arg with
  | Some s => negb (String.eqb s "")
  | None => false
  end.

(** [filterGroups: query ? [{ filters: [f1, f2] }] : []] *)
Definition token_filter_groups (query : option string) (p1 p2 : string)
  : Value :=
  match query with
  | Some q =>
      if given query
      then VArr [VObj [("filters",
                        VArr [filter_on p1 "CONTAINS_TOKEN" q;
                              filter_on p2 "CONTAINS_TOKEN" q])]]
      else VArr []
  | None => VArr []
  end.

(** The object literal the five search handlers hand to [asText]:
    [{ ok: true, count: data?.results?.length ?? 0,
       results: data?.results ?? [], paging: data?.paging ?? null }] *)
Definition search_envelope (data : Value) : Value :=
  VObj [("ok", VBool true);
        ("count", coalesce (length_of (member "results" data)) (VNum 0));
        ("results", coalesce (member "results" data) (VArr []));
        ("paging", coalesce (member "paging" data) VNull)].

(** [{ ok: false, error: String(e) }] *)
Definition failure_envelope (e : Thrown) : Value :=
  VObj [("ok", VBool false); ("error", VStr (String_of e))].

(** [{ ok: true, ...data }] *)
Definition passthrough_envelope (data : Value) : Value :=
  VObj (spread_into [("ok", VBool true)] data).

(** *** The tools *)

Definition contacts_default_properties : list string :=
  ["email"; "firstname"; "lastname"; "lifecyclestage"; "createdate";
   "hubspot_owner_id"].

Definition hubspot_contacts_search (query : option string)
    (properties : option (list string)) (limit : option Z) : M ToolResult :=
  let properties := default contacts_default_properties properties in
  let limit := default 20%Z limit in
  try_catch
    (let body :=
       VObj [("filterGroups", token_filter_groups query "email" "firstname");
             ("properties", strings properties);
             ("limit", VNum limit)] in
     let* data := hsPOST "/crm/v3/objects/contacts/search" body in
     ret (asText (search_envelope data) (Some "contacts")))
    (λ e, ret (asText (failure_envelope e) (Some "contacts_error"))).

Definition companies_default_properties : list string :=
  ["name"; "domain"; "industry"; "city"; "country"].

Definition hubspot_companies_search (query : option string)
    (properties : option (list string)) (limit : option Z) : M ToolResult :=
  let properties := default companies_default_properties properties in
  let limit := default 20%Z limit in
  try_catch
    (let* data := hsPOST "/crm/v3/objects/companies/search"
        (VObj [("filterGroups", token_filter_groups query "name" "domain");
               ("properties", strings properties);
               ("limit", VNum limit)]) in
     ret (asText (search_envelope data) (Some "companies")))
    (λ e, ret (asText (failure_envelope e) (Some "companies_error"))).

Definition deals_default_properties : list string :=
  ["dealname"; "amount"; "dealstage"; "pipeline"; "createdate";
   "hs_close_date"; "hubspot_owner_id"].

(** [filters.push({ propertyName, operator: "EQ", value })] under [if (arg)] *)
Definition push_eq (propertyName : string) (arg : option string)
    (filters : list Value) : list Value :=
  match arg with
  | Some value =>
      if given arg then filters ++ [filter_on propertyName "EQ" value]
      else filters
  | None => filters
  end.

(** [filters.length ? [{ filters }] : []] *)
Definition filter_groups_of (filters : list Value) : Value :=
  if negb (Z.of_nat (length filters) =? 0)%Z
  then VArr [VObj [("filters", VArr filters)]]
  else VArr [].

Definition hubspot_deals_search (stage pipeline : option string)
    (properties : option (list string)) (limit : option Z) : M ToolResult :=
  let properties := default deals_default_properties properties in
  let limit := default 20%Z limit in
  try_catch
    (let filters := [] in
     let filters := push_eq "dealstage" stage filters in
     let filters := push_eq "pipeline" pipeline filters in
     let body :=
       VObj [("filterGroups", filter_groups_of filters);
             ("properties", strings properties);
             ("limit", VNum limit)] in
     let* data := hsPOST "/crm/v3/objects/deals/search" body in
     ret (asText (search_envelope data) (Some "deals")))
    (λ e, ret (asText (failure_envelope e) (Some "deals_error"))).

Definition optional (arg : option string) : QueryValue :=
  match arg with
  | Some s => QStr s
  | None => QUndefined
  end.

Definition hubspot_owners_list (after : option string) (limit : option Z)
  : M ToolResult :=
  let limit := default 100%Z limit in
  try_catch
    (let* data := hsGET "/crm/v3/owners/"
        [("after", optional after); ("limit", QNum limit)] in
     ret (asText (passthrough_envelope data) (Some "owners")))
    (λ e, ret (asText (failure_envelope e) (Some "owners_error"))).

Definition hubspot_properties (object : option string) : M ToolResult :=
  let object := default "deals" object in
  try_catch
    (let* data := hsGET ("/crm/v3/properties/" +:+ object) [] in
     ret (asText (passthrough_envelope data) (Some "properties")))
    (λ e, ret (asText (failure_envelope e) (Some "properties_error"))).

Definition hubspot_pipelines (object : option string) : M ToolResult :=
  let object := default "deals" object in
  try_catch
    (let* data := hsGET ("/crm/v3/pipelines/" +:+ object) [] in
     ret (asText (passthrough_envelope data) (Some "pipelines")))
    (λ e, ret (asText (failure_envelope e) (Some "pipelines_error"))).

Definition hubspot_paginate (object : string) (after : option string)
    (properties : option (list string)) (limit : option Z) : M ToolResult :=
  let properties := default [] properties in
  let limit := default 100%Z limit in
  try_catch
    (let* data := hsGET ("/crm/v3/objects/" +:+ object)
        [("properties", QStr (join "," properties));
         ("limit", QNum limit);
         ("after", optional after)] in
     ret (asText (passthrough_envelope data) (Some "paginate")))
    (λ e, ret (asText (failure_envelope e) (Some "paginate_error"))).

(** [inputs: part.map((id) => ({ id }))] *)
Definition inputs_of (part : list string) : Value :=
  VArr (map (λ id, VObj [("id", VStr id)]) part).

Definition batch_read_request (object : string) (properties : list string)
    (part : list string) : Request :=
  {| url := api ("/crm/v3/objects/" +:+ object +:+ "/batch/read");
     searchParams := []; method := POST; headers := post_headers;
     body := Some (JSON_stringify
                     (VObj [("properties", strings properties);
                            ("inputs", inputs_of part)])) |}.

(** The body of [for (const part of chunk(ids))] on one response:
    the new [all], or what is thrown. *)
Definition batch_read_collect (object : string) (res : Response)
    (all : list Value) : M (list Value) :=
  if negb (ok res) then
    throw (Error ("HubSpot batch " +:+ object +:+ " "
                  +:+ Number_toString (status res) +:+ " " +:+ text res))
  else
    match json res with
    | SyntaxError str => throw (Raised str)
    | Parses json =>
        if truthy (member "results" json) then
          match iterate (member "results" json) with
          | Some items => ret (all ++ items)
          | None => throw (Raised not_iterable)
          end
        else ret all
    end.

Fixpoint batch_read_loop (object : string) (properties : list string)
    (parts : list (list string)) (all : list Value) : M (list Value) :=
  match parts with
  | [] => ret all
  | part :: rest =>
      let* res := fetch remote (batch_read_request object properties part) in
      let* all := batch_read_collect object res all in
      batch_read_loop object properties rest all
  end.

Definition hubspot_batch_read (object : string) (ids : list string)
    (properties : option (list string)) : M ToolResult :=
  let properties := default [] properties in
  try_catch
    (let* all := batch_read_loop object properties (chunk ids chunk_size) [] in
     ret (asText (VObj [("ok", VBool true); ("results", VArr all)])
            (Some "batch_read")))
    (λ e, ret (asText (failure_envelope e) (Some "batch_read_error"))).

Definition associations_request (from_object to_object : string)
    (ids : list string) : Request :=
  {| url := api ("/crm/v3/associations/" +:+ from_object +:+ "/"
                 +:+ to_object +:+ "/batch/read");
     searchParams := []; method := POST; headers := post_headers;
     body := Some (JSON_stringify (VObj [("inputs", inputs_of ids)])) |}.

Definition hubspot_associations_batch (from_object to_object : string)
    (ids : list string) : M ToolResult :=
  try_catch
    (let* res := fetch remote (associations_request from_object to_object ids) in
     if negb (ok res) then
       throw (Error ("HubSpot associations " +:+ from_object +:+ "->"
                     +:+ to_object +:+ " " +:+ Number_toString (status res)
                     +:+ " " +:+ text res))
     else
       match json res with
       | SyntaxError str => throw (Raised str)
       | Parses data =>
           ret (asText (passthrough_envelope data) (Some "associations"))
       end)
    (λ e, ret (asText (failure_envelope e) (Some "associations_error"))).

Definition hubspot_recently_modified (object : string) (since_ms : Z)
    (properties : option (list string)) (limit : option Z) : M ToolResult :=
  let properties := default [] properties in
  let limit := default 50%Z limit in
  try_catch
    (let* data := hsPOST ("/crm/v3/objects/" +:+ object +:+ "/search")
        (VObj [("filterGroups",
                VArr [VObj [("filters",
                             VArr [filter_on "hs_lastmodifieddate" "GTE"
                                     (Number_toString since_ms)])]]);
               ("properties", strings properties);
               ("limit", VNum limit);
               ("sorts",
                VArr [VObj [("propertyName", VStr "hs_lastmodifieddate");
                            ("direction", VStr "DESCENDING")]])]) in
     ret (asText (search_envelope data) (Some "recently_modified")))
    (λ e, ret (asText (failure_envelope e) (Some "recently_modified_error"))).

(** [filterGroups] and [sorts] are [z.any()]: any value, [sorts] possibly
    undefined. *)
Definition hubspot_search_advanced (object : string) (filterGroups : Value)
    (properties : option (list string)) (limit : option Z) (sorts : Value)
  : M ToolResult :=
  let properties := default [] properties in
  let limit := default 50%Z limit in
  try_catch
    (let* data := hsPOST ("/crm/v3/objects/" +:+ object +:+ "/search")
        (VObj (spread_into
                 [("filterGroups", filterGroups);
                  ("properties", strings properties);
                  ("limit", VNum limit)]
                 (if truthy sorts then VObj [("sorts", sorts)] else VObj []))) in
     ret (asText (search_envelope data) (Some "advanced_search")))
    (λ e, ret (asText (failure_envelope e) (Some "advanced_search_error"))).

(** *** The catalogue *)

Inductive ToolCall : Type :=
| Contacts_search (query : option string) (properties : option (list string))
    (limit : option Z)
| Companies_search (query : option string) (properties : option (list string))
    (limit : option Z)
| Deals_search (stage pipeline : option string)
    (properties : option (list string)) (limit : option Z)
| Owners_list (after : option string) (limit : option Z)
| Properties (object : option string)
| Pipelines (object : option string)
| Paginate (object : string) (after : option string)
    (properties : option (list string)) (limit : option Z)
| Batch_read (object : string) (ids : list string)
    (properties : option (list string))
| Associations_batch (from_object to_object : string) (ids : list string)
| Recently_modified (object : string) (since_ms : Z)
    (properties : option (list string)) (limit : option Z)
| Search_advanced (object : string) (filterGroups : Value)
    (properties : option (list string)) (limit : option Z) (sorts : Value).

(** The handler [server.registerTool] binds to each name. *)
Definition handler (call : ToolCall) : M ToolResult :=
  match call with
  | Contacts_search q p l => hubspot_contacts_search q p l
  | Companies_search q p l => hubspot_companies_search q p l
  | Deals_search s pl p l => hubspot_deals_search s pl p l
  | Owners_list a l => hubspot_owners_list a l
  | Properties o => hubspot_properties o
  | Pipelines o => hubspot_pipelines o
  | Paginate o a p l => hubspot_paginate o a p l
  | Batch_read o ids p => hubspot_batch_read o ids p
  | Associations_batch f t ids => hubspot_associations_batch f t ids
  | Recently_modified o s p l => hubspot_recently_modified o s p l
  | Search_advanced o f p l s => hubspot_search_advanced o f p l s
  end.

(** The label of the failure reply of each tool. *)
Definition error_label (call : ToolCall) : string :=
  match call with
  | Contacts_search _ _ _ => "contacts_error"
  | Companies_search _ _ _ => "companies_error"
  | Deals_search _ _ _ _ => "deals_error"
  | Owners_list _ _ => "owners_error"
  | Properties _ => "properties_error"
  | Pipelines _ => "pipelines_error"
  | Paginate _ _ _ _ => "paginate_error"
  | Batch_read _ _ _ => "batch_read_error"
  | Associations_batch _ _ _ => "associations_error"
  | Recently_modified _ _ _ _ => "recently_modified_error"
  | Search_advanced _ _ _ _ _ => "advanced_search_error"
  end.

(** The message of the [Error] each tool throws on a non-2xx response. *)
Definition status_message (call : ToolCall) (res : Response) : string :=
  match call with
  | Batch_read object _ _ =>
      "HubSpot batch " +:+ object +:+ " "
      +:+ Number_toString (status res) +:+ " " +:+ text res
  | Associations_batch from_object to_object _ =>
      "HubSpot associations " +:+ from_object +:+ "->" +:+ to_object +:+ " "
      +:+ Number_toString (status res) +:+ " " +:+ text res
  | _ => "HubSpot " +:+ Number_toString (status res) +:+ " " +:+ text res
  end.

(** The label of the success reply of each tool. *)
Definition success_label (call : ToolCall) : string :=
  match call with
  | Contacts_search _ _ _ => "contacts"
  | Companies_search _ _ _ => "companies"
  | Deals_search _ _ _ _ => "deals"
  | Owners_list _ _ => "owners"
  | Properties _ => "properties"
  | Pipelines _ => "pipelines"
  | Paginate _ _ _ _ => "paginate"
  | Batch_read _ _ _ => "batch_read"
  | Associations_batch _ _ _ => "associations"
  | Recently_modified _ _ _ _ => "recently_modified"
  | Search_advanced _ _ _ _ _ => "advanced_search"
  end.

(** The envelope of the success reply, from the data the tool obtained
    (for [hubspot_batch_read], the array [all]). *)
Definition success_payload (call : ToolCall) (data : Value) : Value :=
  match call with
  | Contacts_search _ _ _ | Companies_search _ _ _ | Deals_search _ _ _ _
  | Recently_modified _ _ _ _ | Search_advanced _ _ _ _ _ =>
      search_envelope data
  | Owners_list _ _ | Properties _ | Pipelines _ | Paginate _ _ _ _
  | Associations_batch _ _ _ =>
      passthrough_envelope data
  | Batch_read _ _ _ => VObj [("ok", VBool true); ("results", data)]
  end.

Definition success_reply (call : ToolCall) (data : Value) : ToolResult :=
  asText (success_payload call data) (Some (success_label call)).

Definition failure_reply (call : ToolCall) (e : Thrown) : ToolResult :=
  asText (failure_envelope e) (Some (error_label call)).

(** The tools that call the remote through [hsPOST] or [hsGET]. *)
Definition uses_helper (call : ToolCall) : bool :=
  match call with
  | Batch_read _ _ _ | Associations_batch _ _ _ => false
  | _ => true
  end.

(** The five tools that query a search endpoint. *)
Definition is_search (call : ToolCall) : bool :=
  match call with
  | Contacts_search _ _ _ | Companies_search _ _ _ | Deals_search _ _ _ _
  | Recently_modified _ _ _ _ | Search_advanced _ _ _ _ _ => true
  | _ => false
  end.

(** What [hsPOST] and [hsGET] return on a 2xx response. *)
Definition received (res : Response) : Value :=
  match json res with
  | Parses v => v
  | SyntaxError _ => VStr (text res)
  end.

(** The reply of a tool that issues one call, from the outcome of that
    call. *)
Definition outcome_reply (call : ToolCall) (o : FetchOutcome) : ToolResult :=
  match o with
  | Rejects str => failure_reply call (Raised str)
  | Responds res =>
      if negb (ok res) then failure_reply call (Error (status_message call res))
      else if uses_helper call then success_reply call (received res)
      else match json res with
           | Parses data => success_reply call data
           | SyntaxError str => failure_reply call (Raised str)
           end
  end.

(** What one round of the loop of [hubspot_batch_read] makes of the
    outcome of its call: the items it appends to [all], or what it throws. *)
Definition collected (object : string) (o : FetchOutcome)
  : Thrown + list Value :=
  match o with
  | Rejects str => inl (Raised str)
  | Responds res => (batch_read_collect object res [] []).1
  end.

Definition items_of (object : string) (o : FetchOutcome) : list Value :=
  match collected object o with
  | inr items => items
  | inl _ => []
  end.

Definition succeeds (object : string) (o : FetchOutcome) : Prop :=
  ∃ items, collected object o = inr items.

(** *** The diagnostic route *)

(** [res.status(code).json(payload)]; [res.json] alone answers 200. *)
Record HttpReply : Type := { code : Z; payload : Value }.

(** The body [/diag/contacts] posts; [q] is [req.query.q], undefined
    when the parameter is missing. *)
Definition diag_body (q : Value) : Value :=
  VObj [("filterGroups",
         VArr [VObj [("filters",
                      VArr [VObj [("propertyName", VStr "email");
                                  ("operator", VStr "CONTAINS_TOKEN");
                                  ("value", or_else q (VStr "@gmail.com"))]])]]);
        ("properties",
         strings ["email"; "firstname"; "lastname"; "lifecyclestage";
                  "createdate"]);
        ("limit", VNum 5)].

(** [app.get("/diag/contacts")] *)
Definition diag_contacts (q : Value) : M HttpReply :=
  try_catch
    (let* data := hsPOST "/crm/v3/objects/contacts/search" (diag_body q) in
     ret {| code := 200;
            payload :=
              VObj [("ok", VBool true);
                    ("sample",
                     coalesce (length_of (member "results" data)) (VNum 0));
                    ("results", coalesce (member "results" data) (VArr []))] |})
    (λ e, ret {| code := 500; payload := failure_envelope e |}).

(** *** Reading requests and arguments *)

(** The identifiers a batch request carries: the [id] of each of its
    [inputs]. *)
Definition inputs_sent (req : Request) : list string :=
  match body req with
  | Some (JSON_stringify v) =>
      match member "inputs" v with
      | VArr items =>
          omap (λ item, match member "id" item with
                        | VStr id => Some id
                        | _ => None
                        end) items
      | _ => []
      end
  | None => []
  end.

(** [s] without the prefix [p], when it starts with it. *)
Fixpoint strip_prefix (p s : string) : option string :=
  match p, s with
  | EmptyString, _ => Some s
  | String a p', String b s' =>
      if Ascii.eqb a b then strip_prefix p' s' else None
  | String _ _, EmptyString => None
  end.

(** The characters that end the authority of an https URL: [/], [?],
    [#] and the backslash. *)
Definition ends_authority (c : ascii) : bool :=
  bool_decide (nat_of_ascii c ∈ [47; 63; 35; 92]%nat).

Fixpoint until_authority_end (s : string) : string :=
  match s with
  | EmptyString => EmptyString
  | String c rest =>
      if ends_authority c then EmptyString
      else String c (until_authority_end rest)
  end.

(** The authority the URL parser reads from an https URL string: what
    stands between [https://] and the first character that ends it.
    Nothing that follows in the string (dot segments, a query, a
    fragment) can change it. *)
Definition https_authority (url : string) : option string :=
  until_authority_end <$> strip_prefix "https://" url.

(** A request is sent over https to the host [api.hubapi.com] with the
    token of the process; a POST carries a JSON body, a GET none.  The
    path under that host is not constrained. *)
Definition to_hubspot (req : Request) : Prop :=
  https_authority (url req) = Some "api.hubapi.com" ∧
  ("Authorization", "Bearer " +:+ HUBSPOT_TOKEN) ∈ headers req ∧
  match method req with
  | POST => ("Content-Type", "application/json") ∈ headers req
            ∧ is_Some (body req)
  | GET => body req = None
  end.

(** The path has no [?] and no [#]: the URL built from it has no query
    of its own. *)
Definition plain_path (path : string) : bool :=
  forallb (λ c, negb (bool_decide (nat_of_ascii c ∈ [63; 35]%nat)))
          (String.list_ascii_of_string path).

(** The call was answered 2xx with a JSON object whose [results] is the
    array [items]. *)
Definition answers_with (o : FetchOutcome) (items : list Value) : Prop :=
  ∃ res data, o = Responds res ∧ ok res = true ∧ json res = Parses data ∧
              member "results" data = VArr items.

(** What a parameter of the query contributes to the query string. *)
Definition param_of (kv : string * QueryValue) : option (string * string) :=
  if query_keeps kv.2 then Some (kv.1, query_String kv.2) else None.

(** An optional string argument with the empty string read as absent. *)
Definition blank (arg : option string) : option string :=
  match arg with
  | Some s => if String.eqb s "" then None else Some s
  | None => None
  end.

(** The five tools that reply with [{ ok: true, ...data }]. *)
Definition is_passthrough (call : ToolCall) : bool :=
  match call with
  | Owners_list _ _ | Properties _ | Pipelines _ | Paginate _ _ _ _
  | Associations_batch _ _ _ => true
  | _ => false
  end.

(** The most calls a tool can issue. *)
Definition calls_bound (call : ToolCall) : nat :=
  match call with
  | Batch_read _ ids _ => ceil_div (length ids) chunk_size
  | _ => 1
  end.

End Handlers.

End Hubspot.

(** ** The 1.0.0 server ([server.js]): two tools, no envelope *)

Module Legacy.

Import JS Net.

Section Handlers.

Variable HUBSPOT_TOKEN : string.
Variable remote : Remote.
(** [String(e)] of the error [res.json()] rejects with on such a body. *)
Variable invalid_json : Response → string.

Local Open Scope handler_scope.

Definition post_request (path : string) (body : Value) : Request :=
  {| url := "https://api.hubapi.com" +:+ path; searchParams := [];
     method := POST;
     headers := [("Authorization", "Bearer " +:+ HUBSPOT_TOKEN);
                 ("Content-Type", "application/json")];
     body := Some (JSON_stringify (or_else body (VObj []))) |}.

Definition hsPOST (path : string) (body : Value) : M Value :=
  let* res := fetch remote (post_request path body) in
  if negb (ok res) then
    throw (Error ("HubSpot " +:+ Number_toString (status res)
                  +:+ " " +:+ text res))
  else
    match json res with
    | Parses v => ret v
    | SyntaxError _ => throw (Raised (invalid_json res))
    end.

(** The body [hubspot.contacts.search] posts. *)
Definition contacts_search_body (query : option string)
    (properties : option (list string)) (limit : option Z) : Value :=
  let properties :=
    default ["email"; "firstname"; "lastname"; "lifecyclestage"] properties in
  let limit := default 20%Z limit in
  VObj [("filterGroups", Hubspot.token_filter_groups query "email" "firstname");
        ("properties", Hubspot.strings properties);
        ("limit", VNum limit)].

(** [hubspot.contacts.search] *)
Definition hubspot_contacts_search (query : option string)
    (properties : option (list string)) (limit : option Z) : M ToolResult :=
  let* data := hsPOST "/crm/v3/objects/contacts/search"
      (contacts_search_body query properties limit) in
  ret {| content := [JsonItem data] |}.

Definition deals_properties : list string :=
  ["dealname"; "amount"; "dealstage"; "pipeline"; "hs_close_date"].

(** The body [hubspot.deals.search] posts. *)
Definition deals_search_body (stage : option string) (limit : option Z)
  : Value :=
  let limit := default 20%Z limit in
  let filters :=
    match stage with
    | Some s => if Hubspot.given stage
                then [Hubspot.filter_on "dealstage" "EQ" s] else []
    | None => []
    end in
  VObj [("filterGroups", Hubspot.filter_groups_of filters);
        ("limit", VNum limit);
        ("properties", Hubspot.strings deals_properties)].

(** [hubspot.deals.search] *)
Definition hubspot_deals_search (stage : option string) (limit : option Z)
  : M ToolResult :=
  let* data := hsPOST "/crm/v3/objects/deals/search"
      (deals_search_body stage limit) in
  ret {| content := [JsonItem data] |}.

(** [hsGET] of [server.js]: every value but [undefined] is set; [set]
    turns the value into a string, [null] into ["null"]. *)
Definition get_request (path : string)
    (query : list (string * Hubspot.QueryValue)) : Request :=
  {| url := "https://api.hubapi.com" +:+ path;
     searchParams :=
       fold_left (λ params kv,
                    match kv.2 with
                    | Hubspot.QUndefined => params
                    | _ => Hubspot.params_set kv.1 (Hubspot.query_String kv.2)
                             params
                    end) query [];
     method := GET;
     headers := [("Authorization", "Bearer " +:+ HUBSPOT_TOKEN)];
     body := None |}.

Definition hsGET (path : string) (query : list (string * Hubspot.QueryValue))
  : M Value :=
  let* res := fetch remote (get_request path query) in
  if negb (ok res) then
    throw (Error ("HubSpot " +:+ Number_toString (status res)
                  +:+ " " +:+ text res))
  else
    match json res with
    | Parses v => ret v
    | SyntaxError _ => throw (Raised (invalid_json res))
    end.

(** What a tool of [server.js] makes of the outcome of its one call: the
    reply, or what it throws. *)
Definition outcome (o : FetchOutcome) : Thrown + ToolResult :=
  match o with
  | Rejects str => inl (Raised str)
  | Responds res =>
      if ok res then
        match json res with
        | Parses data => inr {| content := [JsonItem data] |}
        | SyntaxError _ => inl (Raised (invalid_json res))
        end
      else inl (Error ("HubSpot " +:+ Number_toString (status res)
                       +:+ " " +:+ text res))
  end.

End Handlers.

End Legacy.

(** ** Sample sessions, remotes and responses *)

Module Samples.

Import JS Net.

Definition session_a : Registry.Transport :=
  {| Registry.sessionId := "3f2b8c1e-9a4d-4c7b-8e21-0d5f6a7b8c9d";
     Registry.stream := 1 |}.

Definition session_b : Registry.Transport :=
  {| Registry.sessionId := "7c9e6679-7425-40de-944b-e07fc1f90ae7";
     Registry.stream := 2 |}.

Definition quoted (s : string) : string :=
  String (Ascii.ascii_of_nat 34) s +:+ String (Ascii.ascii_of_nat 34) "".

(** [{"results":[]}] with status 200 *)
Definition no_results : Response :=
  {| status := 200;
     text := "{" +:+ quoted "results" +:+ ":[]}";
     json := Parses (VObj [("results", VArr [])]) |}.

(** [{"results":[{},{}],"paging":{}}] with status 200 *)
Definition two_results : Response :=
  {| status := 200;
     text := "{" +:+ quoted "results" +:+ ":[{},{}],"
             +:+ quoted "paging" +:+ ":{}}";
     json := Parses (VObj [("results", VArr [VObj []; VObj []]);
                           ("paging", VObj [])]) |}.

(** A 500 with a plain-text body *)
Definition server_error : Response :=
  {| status := 500;
     text := "oops";
     json := SyntaxError "SyntaxError: Unexpected token o in JSON at position 0" |}.

(** A 200 whose body is a page of HTML *)
Definition html_page : Response :=
  {| status := 200;
     text := "<html>busy</html>";
     json := SyntaxError "SyntaxError: Unexpected token < in JSON at position 0" |}.

(** [{"ok":false,"results":[]}] with status 200 *)
Definition says_not_ok : Response :=
  {| status := 200;
     text := "{" +:+ quoted "ok" +:+ ":false," +:+ quoted "results" +:+ ":[]}";
     json := Parses (VObj [("ok", VBool false); ("results", VArr [])]) |}.

(** [{"results":{}}] with status 200 *)
Definition results_object : Response :=
  {| status := 200;
     text := "{" +:+ quoted "results" +:+ ":{}}";
     json := Parses (VObj [("results", VObj [])]) |}.

Definition always (res : Response) : Remote := λ _ _, Responds res.

(** The first call succeeds, every later one fails. *)
Definition fails_after_first : Remote :=
  λ hist _, match hist with
            | [] => Responds no_results
            | _ => Responds server_error
            end.

(** The answer [{"results":[{"id":"..."},...]}] that finds every
    identifier asked for, in the order asked. *)
Definition found (ids : list string) : Response :=
  {| status := 200;
     text := "{" +:+ quoted "results" +:+ ":["
             +:+ join ","
                   (map (λ id, "{" +:+ quoted "id" +:+ ":" +:+ quoted id +:+ "}")
                        ids)
             +:+ "]}";
     json := Parses (VObj [("results",
                            VArr (map (λ id, VObj [("id", VStr id)]) ids))]) |}.

(** A remote that answers each batch request with the records of the
    identifiers the request carries. *)
Definition finds_all : Remote :=
  λ _ req, Responds (found (Hubspot.inputs_sent req)).

(** The identifiers ["1"], ..., ["n"] *)
Definition ids_upto (n : nat) : list string := map pretty (seq 1 n).

End Samples.

(** * Properties *)

(** ** Session routing *)

Section RegistryFacts.

Import Registry.

Implicit Types (transports : gmap string Transport) (t : Transport).

Lemma get_registered transports sid t :
  transports !! sid = Some t → get transports sid = FTransport t.
Proof. intros H. unfold get. by rewrite H. Qed.

Lemma get_unregistered transports sid :
  transports !! sid = None →
  get transports sid = if inherited sid then FInherited sid else FUndefined.
Proof. intros H. unfold get. by rewrite H. Qed.

(** A stream that was opened is registered under its own identifier. *)
Lemma sse_open_registers transports t :
  sse_open t transports !! sessionId t = Some t.
Proof. unfold sse_open. apply lookup_insert_eq. Qed.

(** Opening or closing another session leaves an entry alone. *)
Lemma step_other transports e t :
  match e with Open t' | Close t' => sessionId t' ≠ sessionId t end →
  step transports e !! sessionId t = transports !! sessionId t.
Proof.
  destruct e as [t'|t']; intros Hne; simpl; unfold sse_open, sse_close.
  - by rewrite lookup_insert_ne.
  - by rewrite lookup_delete_ne.
Qed.

(** A session that was opened stays registered while no event on its
    identifier follows. *)
Lemma open_until_closed (later : list Event) transports t :
  Forall (λ e, match e with Open t' | Close t' => sessionId t' ≠ sessionId t end)
         later →
  fold_left step later (sse_open t transports) !! sessionId t = Some t.
Proof.
  intros Hlater. revert transports.
  induction Hlater as [|e later He _ IH]; intros transports; simpl.
  - apply sse_open_registers.
  - destruct e as [t'|t']; simpl; unfold sse_open, sse_close in *.
    + rewrite insert_insert_ne by done. apply IH.
    + rewrite delete_insert_ne by done. apply IH.
Qed.

(** An identifier made by [randomUUID()] is never the name of a property
    of [Object.prototype]. *)
Lemma uuid_not_inherited sid : is_uuid sid = true → inherited sid = false.
Proof.
  intros Huuid. unfold inherited. apply bool_decide_eq_false. intros Hin.
  unfold Object_prototype in Hin.
  repeat (apply elem_of_cons in Hin as [->|Hin]; [by vm_compute in Huuid|]).
  by apply elem_of_nil in Hin.
Qed.

(** An unregistered identifier never reaches a handler. *)
Lemma unregistered_no_handler transports sid body :
  transports !! sid = None →
  handlers_invoked (post_messages transports sid body) = [].
Proof.
  intros H. unfold post_messages. rewrite (get_unregistered _ _ H).
  by destruct (inherited sid).
Qed.

(** An unregistered identifier that is not an inherited name gets 400. *)
Lemma unregistered_plain_rejected transports sid body :
  transports !! sid = None → inherited sid = false →
  post_messages transports sid body = Send 400 "No transport found for sessionId".
Proof.
  intros H Hplain. unfold post_messages.
  by rewrite (get_unregistered _ _ H), Hplain.
Qed.

(** A session that was opened and has not been closed since receives the
    messages posted with its identifier. *)
Lemma opened_session_receives_message (before later : list Event) t body :
  Forall (λ e, match e with Open t' | Close t' => sessionId t' ≠ sessionId t end)
         later →
  post_messages (run (before ++ Open t :: later)) (sessionId t) body
  = HandlePostMessage t body.
Proof.
  intros Hlater. unfold run. rewrite fold_left_app. simpl.
  unfold post_messages.
  by rewrite (get_registered _ _ t (open_until_closed later _ t Hlater)).
Qed.

(** C1.  A message posted with an identifier that is registered is handed
    to the [handlePostMessage] of the transport registered under it, with
    the posted body, and that is the only handler the request reaches. *)
Theorem registered_message_reaches_its_transport transports sid t body :
  transports !! sid = Some t →
  post_messages transports sid body = HandlePostMessage t body ∧
  handlers_invoked (post_messages transports sid body) = [t].
Proof.
  intros H. unfold post_messages. by rewrite (get_registered _ _ _ H).
Qed.

Lemma registered_message_reaches_its_transport_witness :
  let t := Samples.session_a in
  let transports := sse_open Samples.session_b (sse_open t ∅) in
  transports !! sessionId t = Some t ∧
  post_messages transports (sessionId t) (JS.VStr "ping")
    = HandlePostMessage t (JS.VStr "ping") ∧
  handlers_invoked (post_messages transports (sessionId t) (JS.VStr "ping")) = [t].
Proof.
  intros t transports.
  assert (transports !! sessionId t = Some t) as Hreg by reflexivity.
  split; [exact Hreg|].
  exact (registered_message_reaches_its_transport
           transports (sessionId t) t (JS.VStr "ping") Hreg).
Defined.

(** C2, at an input where the code departs from it.  With nothing
    registered, a post whose [sessionId] is [constructor] is not answered
    with 400: the lookup finds the property inherited from
    [Object.prototype], the guard passes, and the call of the missing
    [handlePostMessage] throws.  No handler is reached. *)
Theorem inherited_name_not_rejected body :
  (∅ : gmap string Transport) !! "constructor" = None ∧
  post_messages ∅ "constructor" body = TypeError_not_a_function "constructor" ∧
  post_messages ∅ "constructor" body ≠ Send 400 "No transport found for sessionId" ∧
  handlers_invoked (post_messages ∅ "constructor" body) = [].
Proof. repeat split; done. Qed.

(** C3.  Closing a session removes its entry, a later post with its
    identifier is answered with 400, closing again changes nothing, and
    closing a session that is not registered leaves the registry as it
    was.  [sse_close] is total: there is no error to raise. *)
Theorem close_removes_and_is_idempotent transports t body :
  is_uuid (sessionId t) = true →
  sse_close t transports !! sessionId t = None ∧
  post_messages (sse_close t transports) (sessionId t) body
    = Send 400 "No transport found for sessionId" ∧
  handlers_invoked (post_messages (sse_close t transports) (sessionId t) body) = [] ∧
  sse_close t (sse_close t transports) = sse_close t transports ∧
  (transports !! sessionId t = None → sse_close t transports = transports).
Proof.
  intros Huuid.
  assert (Hgone : sse_close t transports !! sessionId t = None)
    by apply lookup_delete_eq.
  split_and!.
  - done.
  - apply unregistered_plain_rejected; [done|by apply uuid_not_inherited].
  - by apply unregistered_no_handler.
  - unfold sse_close. by rewrite delete_delete_eq.
  - intros Habsent. unfold sse_close. by apply delete_id.
Qed.

Lemma close_removes_and_is_idempotent_witness :
  let t := Samples.session_a in
  let transports := sse_open t ∅ in
  is_uuid (sessionId t) = true ∧
  sse_close t transports !! sessionId t = None ∧
  post_messages (sse_close t transports) (sessionId t) JS.VNull
    = Send 400 "No transport found for sessionId" ∧
  handlers_invoked (post_messages (sse_close t transports) (sessionId t) JS.VNull) = [] ∧
  sse_close t (sse_close t transports) = sse_close t transports ∧
  (transports !! sessionId t = None → sse_close t transports = transports).
Proof.
  intros t transports.
  assert (is_uuid (sessionId t) = true) as Huuid by (vm_compute; reflexivity).
  split; [exact Huuid|].
  exact (close_removes_and_is_idempotent transports t JS.VNull Huuid).
Defined.

End RegistryFacts.

(** ** JS objects *)

Section ObjectFacts.

Import JS.

Lemma has_key_obj_get k props :
  has_key k props = false ↔ obj_get k props = None.
Proof.
  induction props as [|[k' v] rest IH]; simpl; [done|].
  rewrite orb_false_iff, IH.
  destruct (obj_get k rest), (String.eqb k k'); split; try done; by intros [].
Qed.

Lemma obj_get_set k k' v props :
  obj_get k (obj_set k' v props)
  = if String.eqb k k' then Some v else obj_get k props.
Proof.
  induction props as [|[k1 w] rest IH]; simpl.
  - by destruct (String.eqb k k').
  - destruct (String.eqb k' k1) eqn:E1.
    + apply String.eqb_eq in E1 as <-.
      destruct (has_key k' rest) eqn:Hk; simpl.
      * rewrite IH. destruct (String.eqb k k') eqn:E; [done|].
        by destruct (obj_get k rest).
      * apply has_key_obj_get in Hk.
        destruct (String.eqb k k') eqn:E; [|done].
        apply String.eqb_eq in E. subst k. by rewrite Hk.
    + simpl. rewrite IH. by destruct (String.eqb k k').
Qed.

(** [{ ...target, ...v }] has every property of [v], and those of
    [target] that [v] does not redefine. *)
Lemma obj_get_spread k target v :
  obj_get k (spread_into target v)
  = match obj_get k (own_props v) with
    | Some x => Some x
    | None => obj_get k target
    end.
Proof.
  unfold spread_into. generalize (own_props v) as src. intros src.
  revert target. induction src as [|[k1 v1] rest IH]; intros target; simpl.
  - done.
  - rewrite IH, obj_get_set. by destruct (obj_get k rest), (String.eqb k k1).
Qed.

End ObjectFacts.

(** ** Batch groups *)

Section ChunkFacts.

Import JS Hubspot.

Context {A : Type}.
Implicit Types (arr : list A) (out : list (list A)).

Lemma ceil_div_0 size : (0 < size)%nat → ceil_div 0 size = 0%nat.
Proof. intros. unfold ceil_div. apply Nat.div_small. lia. Qed.

Lemma ceil_div_step n size :
  (0 < size)%nat → (0 < n)%nat →
  ceil_div n size = S (ceil_div (n - size) size).
Proof.
  intros Hs Hn. unfold ceil_div.
  destruct (decide (n <= size)%nat) as [Hle|Hgt].
  - replace (n - size + size - 1)%nat with (size - 1)%nat by lia.
    rewrite (Nat.div_small (size - 1)) by lia.
    replace (n + size - 1)%nat with ((n - 1) + 1 * size)%nat by lia.
    rewrite Nat.div_add by lia. rewrite Nat.div_small; lia.
  - replace (n + size - 1)%nat with ((n - size + size - 1) + 1 * size)%nat by lia.
    rewrite Nat.div_add by lia. lia.
Qed.

Lemma length_slice i j arr :
  length (slice i j arr) = ((j - i) `min` (length arr - i))%nat.
Proof. unfold slice. by rewrite length_take, length_drop. Qed.

(** The loop appends the groups cut from position [i] on; any fuel that
    covers the remaining elements gives the same list. *)
Lemma chunk_loop_groups fuel arr size i out :
  (0 < size)%nat → (length arr - i <= fuel)%nat →
  chunk_loop fuel arr size i out
  = out ++ map (group_at arr size i) (seq 0 (ceil_div (length arr - i) size)).
Proof.
  intros Hsize. revert i out.
  induction fuel as [|fuel IH]; intros i out Hfuel; simpl.
  - replace (length arr - i)%nat with 0%nat by lia.
    rewrite ceil_div_0 by done. simpl. by rewrite app_nil_r.
  - destruct (i <? length arr)%nat eqn:Hlt.
    + apply Nat.ltb_lt in Hlt.
      rewrite IH by lia.
      rewrite (ceil_div_step (length arr - i)) by lia.
      replace (length arr - i - size)%nat with (length arr - (i + size))%nat by lia.
      rewrite <- app_assoc. f_equal. simpl. f_equal.
      * unfold group_at. f_equal; lia.
      * rewrite <- seq_shift, map_map. apply map_ext. intros j.
        unfold group_at. f_equal; lia.
    + apply Nat.ltb_ge in Hlt.
      replace (length arr - i)%nat with 0%nat by lia.
      rewrite ceil_div_0 by done. simpl. by rewrite app_nil_r.
Qed.

Lemma chunk_groups arr size :
  (0 < size)%nat →
  chunk arr size = map (group_at arr size 0) (seq 0 (ceil_div (length arr) size)).
Proof.
  intros Hsize. unfold chunk. rewrite chunk_loop_groups by lia.
  by rewrite Nat.sub_0_r.
Qed.

(** More fuel changes nothing: the loop ends by its own test. *)
Lemma chunk_fuel_enough fuel arr size :
  (0 < size)%nat → (length arr <= fuel)%nat →
  chunk_loop fuel arr size 0 [] = chunk arr size.
Proof.
  intros Hsize Hfuel. unfold chunk.
  by rewrite !chunk_loop_groups by lia.
Qed.

Lemma length_chunk arr size :
  (0 < size)%nat → length (chunk arr size) = ceil_div (length arr) size.
Proof. intros. rewrite chunk_groups by done. by rewrite length_map, length_seq. Qed.

Lemma chunk_lookup arr size j :
  (0 < size)%nat →
  chunk arr size !! j
  = if decide (j < ceil_div (length arr) size)%nat
    then Some (take size (drop (j * size) arr)) else None.
Proof.
  intros Hsize. rewrite chunk_groups by done.
  rewrite list_lookup_fmap. case_decide as Hj.
  - rewrite lookup_seq_lt by done. simpl. unfold group_at, slice.
    do 2 f_equal; lia.
  - rewrite lookup_seq_ge by lia. done.
Qed.

Lemma ceil_div_bounds n size :
  (0 < size)%nat → (0 < n)%nat →
  ((ceil_div n size - 1) * size < n ∧ n <= ceil_div n size * size)%nat.
Proof.
  intros Hs Hn. unfold ceil_div.
  pose proof (Nat.div_mod_eq (n + size - 1) size) as Hdm.
  pose proof (Nat.mod_upper_bound (n + size - 1) size ltac:(lia)) as Hub.
  set (q := ((n + size - 1) / size)%nat) in *.
  set (r := ((n + size - 1) `mod` size)%nat) in *.
  assert (1 <= q)%nat by (destruct q; [nia|lia]).
  split; nia.
Qed.

(** The groups, put end to end, are the input. *)
Lemma concat_chunk_loop fuel arr size i out :
  (0 < size)%nat → (length arr - i <= fuel)%nat →
  concat (chunk_loop fuel arr size i out) = concat out ++ drop i arr.
Proof.
  intros Hsize. revert i out.
  induction fuel as [|fuel IH]; intros i out Hfuel; simpl.
  - rewrite drop_ge by lia. by rewrite app_nil_r.
  - destruct (i <? length arr)%nat eqn:Hlt.
    + rewrite IH by lia. rewrite concat_app. simpl. rewrite app_nil_r.
      rewrite <- app_assoc. f_equal. unfold slice.
      replace (i + size - i)%nat with size by lia.
      rewrite <- (take_drop size (drop i arr)) at 2.
      by rewrite drop_drop.
    + apply Nat.ltb_ge in Hlt. rewrite drop_ge by lia. by rewrite app_nil_r.
Qed.

Lemma concat_chunk arr size :
  (0 < size)%nat → concat (chunk arr size) = arr.
Proof. intros. unfold chunk. by rewrite concat_chunk_loop by lia. Qed.

(** Every group but the last is full; the last holds the remainder. *)
Lemma length_chunk_group arr size j group :
  (0 < size)%nat → chunk arr size !! j = Some group →
  (S j < ceil_div (length arr) size → length group = size)%nat ∧
  (S j = ceil_div (length arr) size →
   length group = length arr - j * size ∧ 1 <= length group <= size)%nat.
Proof.
  intros Hsize. rewrite chunk_lookup by done.
  case_decide as Hj; [|done]. intros [= <-].
  rewrite length_take, length_drop.
  assert (0 < length arr)%nat as Hpos.
  { destruct arr; [|simpl; lia]. rewrite ceil_div_0 in Hj by done. lia. }
  pose proof (ceil_div_bounds (length arr) size Hsize Hpos) as [Hlo Hhi].
  split; intros Hk; nia.
Qed.

End ChunkFacts.

(** ** Tool handlers *)

Section HandlerFacts.

Import JS Net Hubspot.

Variable HUBSPOT_TOKEN : string.
Variable remote : Remote.
Variable not_iterable : string.
Variable invalid_json : Response → string.

Local Abbreviation handler := (Hubspot.handler HUBSPOT_TOKEN remote not_iterable).
Local Abbreviation hsPOST := (Hubspot.hsPOST HUBSPOT_TOKEN remote).
Local Abbreviation hsGET := (Hubspot.hsGET HUBSPOT_TOKEN remote).
Local Abbreviation post_request := (Hubspot.post_request HUBSPOT_TOKEN).
Local Abbreviation get_request := (Hubspot.get_request HUBSPOT_TOKEN).
Local Abbreviation batch_read_request := (Hubspot.batch_read_request HUBSPOT_TOKEN).
Local Abbreviation batch_read_loop :=
  (Hubspot.batch_read_loop HUBSPOT_TOKEN remote not_iterable).
Local Abbreviation batch_read_collect := (Hubspot.batch_read_collect not_iterable).
Local Abbreviation collected := (Hubspot.collected not_iterable).
Local Abbreviation items_of := (Hubspot.items_of not_iterable).
Local Abbreviation succeeds := (Hubspot.succeeds not_iterable).

Implicit Types (tr : Trace) (res : Response) (req : Request).

Lemma string_app_assoc (a b c : string) : (a +:+ b) +:+ c = a +:+ b +:+ c.
Proof.
  induction a as [|x a IH]; [done|].
  change (String x ((a +:+ b) +:+ c) = String x (a +:+ b +:+ c)).
  by rewrite IH.
Qed.

Lemma fetch_run req tr :
  fetch remote req tr
  = (match remote (map fst tr) req with
     | Rejects str => inl (Raised str)
     | Responds res => inr res
     end, tr ++ [(req, remote (map fst tr) req)]).
Proof. unfold fetch. by destruct (remote (map fst tr) req). Qed.

Lemma parsed_or_text_run res tr :
  parsed_or_text res tr
  = (if ok res then inr (received res)
     else inl (Error ("HubSpot " +:+ Number_toString (status res)
                      +:+ " " +:+ text res)), tr).
Proof.
  unfold parsed_or_text, received.
  destruct (ok res); simpl; [|done]. by destruct (json res).
Qed.

(** A helper issues exactly one call, whatever the outcome. *)
Lemma helper_run req tr :
  bind (fetch remote req) parsed_or_text tr
  = (match remote (map fst tr) req with
     | Rejects str => inl (Raised str)
     | Responds res =>
         if ok res then inr (received res)
         else inl (Error ("HubSpot " +:+ Number_toString (status res)
                          +:+ " " +:+ text res))
     end, tr ++ [(req, remote (map fst tr) req)]).
Proof.
  unfold bind. rewrite fetch_run.
  destruct (remote (map fst tr) req) as [str|res]; [done|].
  by rewrite parsed_or_text_run.
Qed.

(** The shape shared by the nine tools built on a helper. *)
Lemma helper_tool_run call req (k : Value → M ToolResult)
    (h : Thrown → M ToolResult) tr :
  uses_helper call = true →
  (∀ res, status_message call res
          = "HubSpot " +:+ Number_toString (status res) +:+ " " +:+ text res) →
  (∀ data, k data = ret (success_reply call data)) →
  (∀ e, h e = ret (failure_reply call e)) →
  try_catch (bind (bind (fetch remote req) parsed_or_text) k) h tr
  = (inr (outcome_reply call (remote (map fst tr) req)),
     tr ++ [(req, remote (map fst tr) req)]).
Proof.
  intros Hhelper Hmsg Hk Hh. unfold try_catch, bind at 1.
  rewrite helper_run. unfold outcome_reply.
  destruct (remote (map fst tr) req) as [str|res]; [by rewrite Hh|].
  rewrite Hhelper. destruct (ok res); simpl.
  - by rewrite Hk.
  - by rewrite Hh, Hmsg.
Qed.

Ltac unfold_tool :=
  unfold hubspot_contacts_search, hubspot_companies_search,
    hubspot_deals_search, hubspot_owners_list, hubspot_properties,
    hubspot_pipelines, hubspot_paginate, hubspot_recently_modified,
    hubspot_search_advanced, Hubspot.hsPOST, Hubspot.hsGET.

(** Every tool but [hubspot_batch_read] issues exactly one call and
    replies according to its outcome. *)
Lemma single_call_run call :
  (∀ object ids properties, call ≠ Batch_read object ids properties) →
  ∃ req, ∀ tr,
    handler call tr
    = (inr (outcome_reply call (remote (map fst tr) req)),
       tr ++ [(req, remote (map fst tr) req)]).
Proof.
  intros Hsingle.
  destruct call as [| | | | | | |o i p| | |]; simpl;
    try (eexists; intros tr; unfold_tool;
         by apply helper_tool_run).
  - by destruct (Hsingle o i p).
  - exists (associations_request HUBSPOT_TOKEN from_object to_object ids).
    intros tr.
    unfold hubspot_associations_batch, try_catch, bind. rewrite fetch_run.
    unfold outcome_reply.
    destruct (remote (map fst tr) _) as [str|res]; [reflexivity|].
    simpl. destruct (ok res); simpl; [|reflexivity].
    destruct (json res); reflexivity.
Qed.

(** *** The loop of [hubspot_batch_read] *)

Lemma batch_read_collect_run object res all tr :
  batch_read_collect object res all tr
  = (match collected object (Responds res) with
     | inl e => inl e
     | inr items => inr (all ++ items)
     end, tr).
Proof.
  unfold Hubspot.collected, Hubspot.batch_read_collect.
  destruct (ok res); simpl; [|done].
  destruct (json res) as [v|str]; simpl; [|done].
  destruct (truthy (member "results" v)); simpl.
  - by destruct (iterate (member "results" v)).
  - unfold ret. by rewrite app_nil_r.
Qed.

(** One round of the loop. *)
Lemma batch_read_loop_cons object properties part rest all tr :
  batch_read_loop object properties (part :: rest) all tr
  = let req := batch_read_request object properties part in
    let o := remote (map fst tr) req in
    match collected object o with
    | inl e => (inl e, tr ++ [(req, o)])
    | inr items =>
        batch_read_loop object properties rest (all ++ items) (tr ++ [(req, o)])
    end.
Proof.
  simpl. unfold bind at 1. rewrite fetch_run.
  destruct (remote (map fst tr) _) as [str|res] eqn:Ho; [done|].
  unfold bind at 1. rewrite batch_read_collect_run.
  by destruct (collected object (Responds res)).
Qed.

(** The calls of a run of the loop: one per group, in order, up to and
    including the first that fails; when none fails, [all] receives the
    items of each response in that order. *)
Lemma batch_read_loop_run object properties parts :
  ∀ all tr, ∃ calls,
    (batch_read_loop object properties parts all tr).2 = tr ++ calls ∧
    map fst calls `prefix_of` map (batch_read_request object properties) parts ∧
    Forall (λ c, ∃ hist, c.2 = remote hist c.1) calls ∧
    match (batch_read_loop object properties parts all tr).1 with
    | inr all' =>
        map fst calls = map (batch_read_request object properties) parts ∧
        Forall (λ c, succeeds object c.2) calls ∧
        all' = all ++ concat (map (λ c, items_of object c.2) calls)
    | inl e =>
        ∃ calls0 c, calls = calls0 ++ [c] ∧
                    Forall (λ c, succeeds object c.2) calls0 ∧
                    collected object c.2 = inl e
    end.
Proof.
  induction parts as [|part rest IH]; intros all tr.
  - exists []. simpl. rewrite !app_nil_r. by split_and!.
  - rewrite batch_read_loop_cons. cbv zeta.
    set (req := batch_read_request object properties part).
    remember (remote (map fst tr) req) as o eqn:Ho.
    assert (∃ hist, (req, o).2 = remote hist (req, o).1) as Horacle
      by (by exists (map fst tr)).
    destruct (collected object o) as [e|items] eqn:Hc.
    { exists [(req, o)]. simpl. split_and!.
      - done.
      - apply prefix_cons, prefix_nil.
      - by constructor.
      - by exists [], (req, o). }
    destruct (IH (all ++ items) (tr ++ [(req, o)]))
      as (calls & Htr & Hprefix & Horacles & Hres).
    exists ((req, o) :: calls). split_and!.
    + rewrite Htr. by rewrite <- app_assoc.
    + simpl. by apply prefix_cons.
    + by constructor.
    + destruct (batch_read_loop object properties rest (all ++ items) _).1
        as [e|all'].
      * destruct Hres as (calls0 & c & -> & Hok & Hfail).
        exists ((req, o) :: calls0), c. split_and!; try done.
        constructor; [by exists items|done].
      * destruct Hres as (Hall & Hok & ->). split_and!.
        -- simpl. by rewrite Hall.
        -- constructor; [by exists items|done].
        -- assert (items_of object o = items) as Hitems
             by (unfold Hubspot.items_of; by rewrite Hc).
           simpl. by rewrite Hitems, <- app_assoc.
Qed.

(** The run of the tool around its loop. *)
Lemma hubspot_batch_read_run object ids properties tr :
  hubspot_batch_read HUBSPOT_TOKEN remote not_iterable object ids properties tr
  = let loop := batch_read_loop object (default [] properties)
                  (chunk ids chunk_size) [] tr in
    (inr match loop.1 with
         | inr all => success_reply (Batch_read object ids properties) (VArr all)
         | inl e => failure_reply (Batch_read object ids properties) e
         end, loop.2).
Proof.
  unfold hubspot_batch_read, try_catch, bind. simpl.
  by destruct (batch_read_loop _ _ _ _ _) as [[e|all] tr'].
Qed.

(** A call of the loop that fails decides the reply. *)
Lemma batch_read_failed_call object ids properties req o e :
  let run := handler (Batch_read object ids properties) [] in
  (req, o) ∈ run.2 → collected object o = inl e →
  run.1 = inr (failure_reply (Batch_read object ids properties) e).
Proof.
  simpl. rewrite hubspot_batch_read_run. cbv zeta. simpl.
  destruct (batch_read_loop_run object (default [] properties)
              (chunk ids chunk_size) [] [])
    as (calls & Htr & _ & _ & Hres).
  rewrite Htr. simpl. intros Hin Hfail.
  assert (∀ l, Forall (λ c, succeeds object c.2) l → (req, o) ∈ l → False)
    as Hclash.
  { intros l Hl Hel. rewrite Forall_forall in Hl.
    destruct (Hl _ Hel) as [items Hitems]. simpl in Hitems. congruence. }
  destruct (batch_read_loop _ _ _ _ _).1 as [e'|all].
  - destruct Hres as (calls0 & c & -> & Hok & Hc).
    apply elem_of_app in Hin as [Hin|Hin]; [by destruct (Hclash _ Hok Hin)|].
    apply list_elem_of_singleton in Hin as <-. simpl in Hc. congruence.
  - destruct Hres as (_ & Hok & _). by destruct (Hclash _ Hok Hin).
Qed.

Lemma collected_not_ok object res :
  ok res = false →
  collected object (Responds res)
  = inl (Error ("HubSpot batch " +:+ object +:+ " "
                +:+ Number_toString (status res) +:+ " " +:+ text res)).
Proof.
  intros Hok. unfold Hubspot.collected, Hubspot.batch_read_collect.
  by rewrite Hok.
Qed.

Lemma collected_not_json object res str :
  ok res = true → json res = SyntaxError str →
  collected object (Responds res) = inl (Raised str).
Proof.
  intros Hok Hjson. unfold Hubspot.collected, Hubspot.batch_read_collect.
  by rewrite Hok, Hjson.
Qed.

(** *** Batch reads *)

(** The groups of [chunk], written with [take] and [drop]. *)
Lemma chunk_take_drop {A} (arr : list A) size :
  (0 < size)%nat →
  chunk arr size
  = map (λ j, take size (drop (j * size) arr))
        (seq 0 (ceil_div (length arr) size)).
Proof.
  intros Hsize. rewrite chunk_groups by done. apply map_ext. intros j.
  unfold group_at, slice. simpl. f_equal. lia.
Qed.

(** A call answered with an array of results adds that array to [all]. *)
Lemma collected_answers_with object o items :
  answers_with o items → collected object o = inr items.
Proof.
  intros (res & data & -> & Hok & Hjson & Hresults).
  unfold Hubspot.collected, Hubspot.batch_read_collect.
  by rewrite Hok, Hjson, Hresults.
Qed.

Lemma items_of_answers object (outcomes : list FetchOutcome) arrays :
  Forall2 answers_with outcomes arrays →
  map (items_of object) outcomes = arrays.
Proof.
  induction 1 as [|o items outcomes arrays Ho _ IH]; simpl; [done|].
  unfold Hubspot.items_of at 1. rewrite (collected_answers_with _ _ _ Ho).
  by rewrite IH.
Qed.

(** C4.  [hubspot_batch_read] cuts the identifiers into ceil(N/90)
    contiguous groups, group j being the 90 identifiers from position
    90*j on — each of 90 but the last, which holds the rest (181
    identifiers: 90, 90, 1).  It calls the remote once per group, in
    group order: call j posts to the batch read endpoint a body whose
    [inputs] are the identifiers of group j, in input order, and calls
    stop at the first that fails.  When every call is answered 2xx with
    an array of results, one call per group was issued and the reply is
    the success envelope whose [results] are those arrays put end to end
    in group order. *)
Theorem batch_read_groups_of_ninety object (ids : list string) properties :
  let groups :=
    map (λ j, take 90 (drop (j * 90) ids))
        (seq 0 (ceil_div (length ids) 90)) in
  let request_for (group : list string) : Request :=
    {| url := "https://api.hubapi.com/crm/v3/objects/" +:+ object
              +:+ "/batch/read";
       searchParams := []; method := POST;
       headers := [("Authorization", "Bearer " +:+ HUBSPOT_TOKEN);
                   ("Content-Type", "application/json")];
       body := Some (JSON_stringify
                 (VObj [("properties", VArr (map VStr (default [] properties)));
                        ("inputs",
                         VArr (map (λ id, VObj [("id", VStr id)]) group))])) |} in
  let run := handler (Batch_read object ids properties) [] in
  chunk ids chunk_size = groups ∧
  length groups = ceil_div (length ids) 90 ∧
  concat groups = ids ∧
  (∀ j group, groups !! j = Some group →
     (S j < length groups → length group = 90)%nat ∧
     (S j = length groups →
      length group = length ids - j * 90 ∧ 1 <= length group <= 90)%nat) ∧
  (length ids = 181%nat → map length groups = [90; 90; 1]%nat) ∧
  map fst run.2 `prefix_of` map request_for groups ∧
  (∀ j req o, run.2 !! j = Some (req, o) →
     req = request_for (take 90 (drop (j * 90) ids)) ∧
     ∃ hist, o = remote hist req) ∧
  (∀ arrays, Forall2 answers_with (map snd run.2) arrays →
     map fst run.2 = map request_for groups ∧
     length run.2 = ceil_div (length ids) 90 ∧
     run.1 = inr (asText (VObj [("ok", VBool true);
                                ("results", VArr (concat arrays))])
                    (Some "batch_read"))) ∧
  ((∀ hist req, ∃ items, answers_with (remote hist req) items) →
   ∃ arrays, Forall2 answers_with (map snd run.2) arrays) ∧
  (∀ all,
     run.1 = inr (asText (VObj [("ok", VBool true); ("results", VArr all)])
                    (Some "batch_read")) →
     map fst run.2 = map request_for groups).
Proof.
  intros groups request_for run.
  assert (0 < chunk_size)%nat as Hsize by (unfold chunk_size; lia).
  assert (chunk ids chunk_size = groups) as Hgroups
    by (by apply chunk_take_drop).
  assert (length groups = ceil_div (length ids) 90) as Hlen
    by (unfold groups; by rewrite length_map, length_seq).
  destruct (batch_read_loop_run object (default [] properties)
              (chunk ids chunk_size) [] [])
    as (calls & Htr & Hprefix & Horacles & Hres).
  assert (run = (inr match (batch_read_loop object (default [] properties)
                              (chunk ids chunk_size) [] []).1 with
                     | inr all => success_reply (Batch_read object ids properties)
                                    (VArr all)
                     | inl e => failure_reply (Batch_read object ids properties) e
                     end, calls)) as Hrun.
  { unfold run. simpl. rewrite hubspot_batch_read_run. cbv zeta.
    by rewrite Htr. }
  assert (map (batch_read_request object (default [] properties))
            (chunk ids chunk_size) = map request_for groups) as Hrequests
    by (by rewrite Hgroups).
  rewrite Hrequests in Hprefix, Hres.
  assert (∀ j group, groups !! j = Some group →
            group = take 90 (drop (j * 90) ids)) as Hgroup.
  { intros j group. unfold groups. rewrite list_lookup_fmap.
    intros Hj. destruct (seq 0 _ !! j) as [j'|] eqn:Hseq; [|done].
    apply lookup_seq in Hseq as [-> _]. simpl in Hj. by injection Hj. }
  split_and!.
  - done.
  - done.
  - rewrite <- Hgroups. by apply concat_chunk.
  - intros j group Hj. rewrite Hlen. rewrite <- Hgroups in Hj.
    by apply (length_chunk_group ids chunk_size j group).
  - intros H181. unfold groups. rewrite H181.
    change (ceil_div 181 90) with 3%nat. simpl.
    rewrite !length_take, !length_drop, H181. reflexivity.
  - by rewrite Hrun.
  - intros j req o. rewrite Hrun. unfold snd at 1. unfold Trace. intros Hj.
    split.
    + assert (map fst calls !! j = Some req) as Hreq
        by (by rewrite list_lookup_fmap, Hj).
      destruct Hprefix as [rest Hrest].
      assert (map request_for groups !! j = Some req) as Hreq'
        by (rewrite Hrest; by apply lookup_app_l_Some).
      rewrite list_lookup_fmap in Hreq'.
      destruct (groups !! j) as [group|] eqn:Hgj; [|done].
      simpl in Hreq'. injection Hreq' as <-.
      by rewrite (Hgroup j group Hgj).
    + rewrite Forall_lookup in Horacles. exact (Horacles j _ Hj).
  - intros arrays. rewrite Hrun. cbn [fst snd]. intros Hanswers.
    destruct (batch_read_loop _ _ _ _ _).1 as [e|all].
    + destruct Hres as (calls0 & c & -> & _ & Hfail).
      assert (c.2 ∈ map snd (calls0 ++ [c])) as Hc
        by (apply list_elem_of_fmap; exists c; split; [done|];
            apply elem_of_app; right; by left).
      apply list_elem_of_lookup in Hc as [i Hi].
      destruct (Forall2_lookup_l _ _ _ _ _ Hanswers Hi) as (items & _ & Hans).
      rewrite (collected_answers_with object _ _ Hans) in Hfail. done.
    + destruct Hres as (Hall & _ & ->). split_and!.
      * done.
      * rewrite <- (length_map fst calls), Hall, length_map. done.
      * simpl. rewrite <- (map_map snd (items_of object)).
        by rewrite (items_of_answers object _ _ Hanswers).
  - intros Hgood. rewrite Hrun. unfold snd at 1.
    clear Hres Hprefix Hrun Htr.
    induction Horacles as [|[req o] calls [hist Ho] _ IH]; simpl.
    + by exists [].
    + destruct IH as [arrays Harrays]. simpl in Ho.
      destruct (Hgood hist req) as [items Hitems]. rewrite <- Ho in Hitems.
      exists (items :: arrays). by constructor.
  - intros all. rewrite Hrun. simpl.
    destruct (batch_read_loop _ _ _ _ _).1 as [e|all']; [intros [=]|].
    by destruct Hres as (Hall & _ & _).
Qed.

(** C6.  When the call for some group is answered with a non-2xx status,
    the reply of [hubspot_batch_read] is the failure envelope made of that
    status and body; the items of the groups read before it are dropped. *)
Theorem batch_read_fails_as_a_whole object ids properties req res :
  let run := handler (Batch_read object ids properties) [] in
  (req, Responds res) ∈ run.2 → ok res = false →
  run.1 = inr {| content :=
    [TextItem (JSON_stringify
       (VObj [("label", VStr "batch_read_error");
              ("data",
               VObj [("ok", VBool false);
                     ("error",
                      VStr ("Error: HubSpot batch " +:+ object +:+ " "
                            +:+ Number_toString (status res) +:+ " "
                            +:+ text res))])]))] |}.
Proof.
  intros run Hin Hok. unfold run.
  rewrite (batch_read_failed_call object ids properties req (Responds res) _
             Hin (collected_not_ok object res Hok)).
  reflexivity.
Qed.

(** C5 asks that [hubspot_associations_batch] send its identifiers in
    groups of at most 90.  It sends them all in one call, however many
    there are: [chunk] is not used on this path. *)
Theorem associations_batch_single_call from_object to_object ids :
  let run := handler (Associations_batch from_object to_object ids) [] in
  map fst run.2 =
    [ {| url := "https://api.hubapi.com" +:+ "/crm/v3/associations/"
                +:+ from_object +:+ "/" +:+ to_object +:+ "/batch/read";
         searchParams := []; method := POST;
         headers := [("Authorization", "Bearer " +:+ HUBSPOT_TOKEN);
                     ("Content-Type", "application/json")];
         body := Some (JSON_stringify
                         (VObj [("inputs",
                                 VArr (map (λ id, VObj [("id", VStr id)]) ids))])) |} ] ∧
  length run.2 = 1%nat.
Proof.
  simpl. unfold hubspot_associations_batch, try_catch, bind.
  rewrite fetch_run. simpl.
  destruct (remote [] _) as [str|res]; [done|].
  destruct (ok res); simpl; [|done]. by destruct (json res).
Qed.

(** *** Failures of the remote *)

(** A tool that issues one call replies from the outcome of that call. *)
Lemma single_call_outcome call req o :
  (∀ object ids properties, call ≠ Batch_read object ids properties) →
  (req, o) ∈ (handler call []).2 →
  (handler call []).1 = inr (outcome_reply call o).
Proof.
  intros Hsingle Hin. destruct (single_call_run call Hsingle) as [req0 Hrun].
  rewrite Hrun in *. simpl in *.
  apply list_elem_of_singleton in Hin. by injection Hin as -> ->.
Qed.

Lemma status_message_ends call res :
  ∃ before,
    String_of (Error (status_message call res))
    = before +:+ Number_toString (status res) +:+ " " +:+ text res.
Proof.
  destruct call; simpl.
  8: exists ("Error: HubSpot batch " +:+ object +:+ " ").
  9: exists ("Error: HubSpot associations " +:+ from_object +:+ "->"
             +:+ to_object +:+ " ").
  all: try by exists "Error: HubSpot ".
  all: change (String_of (Error ?m)) with ("Error: " +:+ m);
    by rewrite !string_app_assoc.
Qed.

(** The run of the helper of [server.js]. *)
Lemma legacy_hsPOST_run path body tr :
  Legacy.hsPOST HUBSPOT_TOKEN remote invalid_json path body tr
  = let req := Legacy.post_request HUBSPOT_TOKEN path body in
    (match remote (map fst tr) req with
     | Rejects str => inl (Raised str)
     | Responds res =>
         if ok res then
           match json res with
           | Parses v => inr v
           | SyntaxError _ => inl (Raised (invalid_json res))
           end
         else inl (Error ("HubSpot " +:+ Number_toString (status res)
                          +:+ " " +:+ text res))
     end, tr ++ [(req, remote (map fst tr) req)]).
Proof.
  unfold Legacy.hsPOST, bind. rewrite fetch_run. cbv zeta.
  destruct (remote (map fst tr) _) as [str|res]; [done|].
  destruct (ok res); simpl; [|done]. by destruct (json res).
Qed.

Lemma legacy_deals_throws stage limit res :
  remote [] (Legacy.post_request HUBSPOT_TOKEN "/crm/v3/objects/deals/search"
               (Legacy.deals_search_body stage limit)) = Responds res →
  ok res = false →
  (Legacy.hubspot_deals_search HUBSPOT_TOKEN remote invalid_json
     stage limit []).1
  = inl (Error ("HubSpot " +:+ Number_toString (status res)
                +:+ " " +:+ text res)).
Proof.
  intros Hres Hok. unfold Legacy.hubspot_deals_search, bind.
  rewrite legacy_hsPOST_run. cbv zeta. simpl map. rewrite Hres.
  by rewrite Hok.
Qed.

Lemma legacy_contacts_throws query properties limit res :
  remote [] (Legacy.post_request HUBSPOT_TOKEN "/crm/v3/objects/contacts/search"
               (Legacy.contacts_search_body query properties limit))
  = Responds res →
  ok res = false →
  (Legacy.hubspot_contacts_search HUBSPOT_TOKEN remote invalid_json
     query properties limit []).1
  = inl (Error ("HubSpot " +:+ Number_toString (status res)
                +:+ " " +:+ text res)).
Proof.
  intros Hres Hok. unfold Legacy.hubspot_contacts_search, bind.
  rewrite legacy_hsPOST_run. cbv zeta. simpl map. rewrite Hres.
  by rewrite Hok.
Qed.

(** C7, as amended.  In the 1.2.0 server no tool handler throws: it always
    returns a reply.  A non-2xx response makes that reply the failure
    envelope whose [error] ends with the status code, a space and the body
    text; a rejected [fetch] makes it the failure envelope with the text
    of that error.  A 2xx response whose body is not JSON is a failure
    only for the two tools that parse it themselves; the nine tools built
    on [hsPOST] and [hsGET] take the text as their data and reply with
    success.  The two tools of [server.js] have no [catch]: a non-2xx
    response is thrown out of the handler. *)
Theorem remote_failure_reply call :
  let run := handler call [] in
  (∃ reply, run.1 = inr reply) ∧
  (∀ req res, (req, Responds res) ∈ run.2 → ok res = false →
     run.1 = inr (asText (VObj [("ok", VBool false);
                                ("error", VStr (String_of (Error (status_message call res))))])
                    (Some (error_label call))) ∧
     ∃ before, String_of (Error (status_message call res))
               = before +:+ Number_toString (status res) +:+ " " +:+ text res) ∧
  (∀ req str, (req, Rejects str) ∈ run.2 →
     run.1 = inr (asText (VObj [("ok", VBool false); ("error", VStr str)])
                    (Some (error_label call)))) ∧
  (∀ req res str, (req, Responds res) ∈ run.2 → ok res = true →
     json res = SyntaxError str →
     run.1 = inr (if uses_helper call
                  then success_reply call (VStr (text res))
                  else asText (VObj [("ok", VBool false); ("error", VStr str)])
                         (Some (error_label call)))) ∧
  (∀ stage limit res,
     remote [] (Legacy.post_request HUBSPOT_TOKEN "/crm/v3/objects/deals/search"
                  (Legacy.deals_search_body stage limit)) = Responds res →
     ok res = false →
     (Legacy.hubspot_deals_search HUBSPOT_TOKEN remote invalid_json
        stage limit []).1
     = inl (Error ("HubSpot " +:+ Number_toString (status res)
                   +:+ " " +:+ text res))) ∧
  (∀ query properties limit res,
     remote [] (Legacy.post_request HUBSPOT_TOKEN "/crm/v3/objects/contacts/search"
                  (Legacy.contacts_search_body query properties limit))
     = Responds res →
     ok res = false →
     (Legacy.hubspot_contacts_search HUBSPOT_TOKEN remote invalid_json
        query properties limit []).1
     = inl (Error ("HubSpot " +:+ Number_toString (status res)
                   +:+ " " +:+ text res))).
Proof.
  intros run.
  assert ((∀ object ids properties, call ≠ Batch_read object ids properties)
          ∨ ∃ object ids properties, call = Batch_read object ids properties)
    as [Hsingle|(object & ids & properties & ->)]
    by (destruct call; eauto 10).
  - split_and!.
    + destruct (single_call_run call Hsingle) as [req0 Hrun].
      unfold run. rewrite Hrun. by eexists.
    + intros req res Hin Hok. split; [|apply status_message_ends].
      unfold run. rewrite (single_call_outcome call req _ Hsingle Hin).
      unfold outcome_reply. by rewrite Hok.
    + intros req str Hin.
      unfold run. by rewrite (single_call_outcome call req _ Hsingle Hin).
    + intros req res str Hin Hok Hjson.
      unfold run. rewrite (single_call_outcome call req _ Hsingle Hin).
      unfold outcome_reply, received. rewrite Hok, Hjson. simpl.
      by destruct (uses_helper call).
    + by apply legacy_deals_throws.
    + by apply legacy_contacts_throws.
  - split_and!.
    + unfold run. simpl. rewrite hubspot_batch_read_run. by eexists.
    + intros req res Hin Hok. split; [|apply status_message_ends].
      unfold run.
      by rewrite (batch_read_failed_call object ids properties req (Responds res)
                    _ Hin (collected_not_ok object res Hok)).
    + intros req str Hin. unfold run.
      by rewrite (batch_read_failed_call object ids properties req (Rejects str)
                    (Raised str) Hin eq_refl).
    + intros req res str Hin Hok Hjson. unfold run.
      by rewrite (batch_read_failed_call object ids properties req (Responds res)
                    _ Hin (collected_not_json object res str Hok Hjson)).
    + by apply legacy_deals_throws.
    + by apply legacy_contacts_throws.
Qed.

(** *** Search and listing *)

Lemma member_search_envelope data :
  member "count" (search_envelope data)
    = coalesce (length_of (member "results" data)) (VNum 0) ∧
  member "results" (search_envelope data)
    = coalesce (member "results" data) (VArr []) ∧
  member "paging" (search_envelope data)
    = coalesce (member "paging" data) VNull ∧
  member "ok" (search_envelope data) = VBool true.
Proof. done. Qed.

(** When the remote sends an array of results, the envelope carries it
    with its length. *)
Lemma search_envelope_of_results data results :
  member "results" data = VArr results →
  search_envelope data
  = VObj [("ok", VBool true);
          ("count", VNum (Z.of_nat (length results)));
          ("results", VArr results);
          ("paging", coalesce (member "paging" data) VNull)].
Proof. intros Hresults. unfold search_envelope. by rewrite Hresults. Qed.

(** C8, as amended.  With only [stage: "closedwon"], the deals search of
    either server posts once to the deals search endpoint a body with the
    single filter [dealstage EQ closedwon], limit 20 and its property
    list (seven names by default in the 1.2.0 server, five fixed names in
    [server.js]).  On a 200 response whose JSON has an array [results] of
    length K, [hubspot_deals_search] replies with the envelope
    [{ok: true, count: K, results, paging}], [paging] being that of the
    response or [null]; [hubspot.deals.search] of [server.js] replies with
    the parsed response itself, as a [json] content item. *)
Theorem deals_search_closedwon :
  let filterGroups :=
    VArr [VObj [("filters",
                 VArr [VObj [("propertyName", VStr "dealstage");
                             ("operator", VStr "EQ");
                             ("value", VStr "closedwon")]])]] in
  let req :=
    {| url := "https://api.hubapi.com/crm/v3/objects/deals/search";
       searchParams := []; method := POST;
       headers := [("Authorization", "Bearer " +:+ HUBSPOT_TOKEN);
                   ("Content-Type", "application/json")];
       body := Some (JSON_stringify
         (VObj [("filterGroups", filterGroups);
                ("properties",
                 VArr [VStr "dealname"; VStr "amount"; VStr "dealstage";
                       VStr "pipeline"; VStr "createdate";
                       VStr "hs_close_date"; VStr "hubspot_owner_id"]);
                ("limit", VNum 20)])) |} in
  let legacy_req :=
    {| url := "https://api.hubapi.com/crm/v3/objects/deals/search";
       searchParams := []; method := POST;
       headers := [("Authorization", "Bearer " +:+ HUBSPOT_TOKEN);
                   ("Content-Type", "application/json")];
       body := Some (JSON_stringify
         (VObj [("filterGroups", filterGroups);
                ("limit", VNum 20);
                ("properties",
                 VArr [VStr "dealname"; VStr "amount"; VStr "dealstage";
                       VStr "pipeline"; VStr "hs_close_date"])])) |} in
  let run := handler (Deals_search (Some "closedwon") None None None) [] in
  let legacy_run :=
    Legacy.hubspot_deals_search HUBSPOT_TOKEN remote invalid_json
      (Some "closedwon") None [] in
  map fst run.2 = [req] ∧
  (∀ res data results,
     remote [] req = Responds res → status res = 200%Z →
     json res = Parses data → member "results" data = VArr results →
     run.1 = inr (asText
                    (VObj [("ok", VBool true);
                           ("count", VNum (Z.of_nat (length results)));
                           ("results", VArr results);
                           ("paging", coalesce (member "paging" data) VNull)])
                    (Some "deals"))) ∧
  map fst legacy_run.2 = [legacy_req] ∧
  (∀ res data,
     remote [] legacy_req = Responds res → status res = 200%Z →
     json res = Parses data →
     legacy_run.1 = inr {| content := [JsonItem data] |}).
Proof.
  intros filterGroups req legacy_req run legacy_run.
  assert (run = (inr (outcome_reply (Deals_search (Some "closedwon") None None None)
                        (remote [] req)), [(req, remote [] req)])) as Hrun.
  { unfold run. simpl. unfold_tool.
    by rewrite (helper_tool_run (Deals_search (Some "closedwon") None None None)). }
  assert (legacy_run
          = (match remote [] legacy_req with
             | Rejects str => inl (Raised str)
             | Responds res =>
                 if ok res then
                   match json res with
                   | Parses v => inr {| content := [JsonItem v] |}
                   | SyntaxError _ => inl (Raised (invalid_json res))
                   end
                 else inl (Error ("HubSpot " +:+ Number_toString (status res)
                                  +:+ " " +:+ text res))
             end, [(legacy_req, remote [] legacy_req)])) as Hlegacy.
  { unfold legacy_run, Legacy.hubspot_deals_search, bind.
    rewrite legacy_hsPOST_run. cbv zeta. simpl map.
    change (Legacy.post_request HUBSPOT_TOKEN "/crm/v3/objects/deals/search"
              (Legacy.deals_search_body (Some "closedwon") None))
      with legacy_req.
    destruct (remote [] legacy_req) as [str|res]; [done|].
    destruct (ok res); [|done]. by destruct (json res). }
  split_and!.
  - by rewrite Hrun.
  - intros res data results Hres Hstatus Hjson Hresults.
    rewrite Hrun, Hres. simpl. unfold outcome_reply, ok, received.
    rewrite Hstatus, Hjson. simpl. unfold success_reply. simpl.
    by rewrite (search_envelope_of_results data results).
  - by rewrite Hlegacy.
  - intros res data Hres Hstatus Hjson.
    rewrite Hlegacy, Hres. simpl. unfold ok. by rewrite Hstatus, Hjson.
Qed.

(** C9.  Without arguments [hubspot_owners_list] issues one GET to the
    owners endpoint whose only query parameter is [limit=100] — there is
    no [after] — and on a 2xx response replies with [{ok: true, ...data}]:
    every top-level property of the response is in the envelope with its
    value, [ok] is [true] unless the response defines it, and nothing
    else is there. *)
Theorem owners_list_defaults :
  let req :=
    {| url := "https://api.hubapi.com/crm/v3/owners/";
       searchParams := [("limit", "100")]; method := GET;
       headers := [("Authorization", "Bearer " +:+ HUBSPOT_TOKEN)];
       body := None |} in
  let run := handler (Owners_list None None) [] in
  map fst run.2 = [req] ∧
  (∀ v, ("after", v) ∉ searchParams req) ∧
  (∀ res, remote [] req = Responds res → ok res = true →
     ∃ envelope,
       run.1 = inr (asText (VObj envelope) (Some "owners")) ∧
       (∀ k v, obj_get k (own_props (received res)) = Some v →
               obj_get k envelope = Some v) ∧
       (obj_get "ok" (own_props (received res)) = None →
        obj_get "ok" envelope = Some (VBool true)) ∧
       (∀ k, k ≠ "ok" → obj_get k (own_props (received res)) = None →
             obj_get k envelope = None)).
Proof.
  intros req run.
  assert (run = (inr (outcome_reply (Owners_list None None) (remote [] req)),
                 [(req, remote [] req)])) as Hrun.
  { unfold run. simpl. unfold_tool.
    by rewrite (helper_tool_run (Owners_list None None)). }
  split_and!.
  - by rewrite Hrun.
  - intros v Hin. simpl in Hin. apply list_elem_of_singleton in Hin. done.
  - intros res Hres Hok.
    exists (spread_into [("ok", VBool true)] (received res)). split_and!.
    + rewrite Hrun, Hres. simpl. unfold outcome_reply. by rewrite Hok.
    + intros k v Hk. by rewrite obj_get_spread, Hk.
    + intros Hk. by rewrite obj_get_spread, Hk.
    + intros k Hne Hk. rewrite obj_get_spread, Hk. simpl.
      destruct (String.eqb k "ok") eqn:E; [|done].
      by apply String.eqb_eq in E.
Qed.

(** C10.  Each of the five search tools, on a 2xx response, replies with
    the envelope [{ok, count, results, paging}] built from what it
    received.  Whenever [results] of the envelope is an array, [count] is
    its length; [results] is the empty array, and [count] 0, when the
    response has no [results]; [paging] is [null] when it has no
    [paging]. *)
Theorem search_envelope_counts_results call :
  is_search call = true →
  let run := handler call [] in
  (∃ req, run.2 = [(req, remote [] req)] ∧
     ∀ res, remote [] req = Responds res → ok res = true →
       run.1 = inr (asText (search_envelope (received res))
                      (Some (success_label call)))) ∧
  (∀ data,
     let envelope := search_envelope data in
     member "ok" envelope = VBool true ∧
     member "count" envelope
       = coalesce (length_of (member "results" envelope)) (VNum 0) ∧
     (∀ results, member "results" envelope = VArr results →
        member "count" envelope = VNum (Z.of_nat (length results))) ∧
     (nullish (member "results" data) = true →
        member "results" envelope = VArr [] ∧
        member "count" envelope = VNum 0) ∧
     (nullish (member "paging" data) = true →
        member "paging" envelope = VNull) ∧
     (nullish (member "paging" data) = false →
        member "paging" envelope = member "paging" data)).
Proof.
  intros Hsearch run. split.
  - assert (∀ object ids properties, call ≠ Batch_read object ids properties)
      as Hsingle by (intros ??? ->; done).
    destruct (single_call_run call Hsingle) as [req Hrun].
    exists req. unfold run. rewrite Hrun. split; [done|].
    intros res Hres Hok. simpl. rewrite Hres. unfold outcome_reply.
    rewrite Hok. simpl.
    destruct call; try done.
  - intros data envelope.
    destruct (member_search_envelope data) as (Hcount & Hresults & Hpaging & Hok).
    fold envelope in Hcount, Hresults, Hpaging, Hok.
    rewrite Hcount, Hresults, Hpaging, Hok. unfold coalesce.
    split_and!.
    + done.
    + by destruct (member "results" data).
    + intros results.
      destruct (member "results" data) as [| | | | |items|]; simpl; try done.
      * by intros [= <-].
      * by intros [= <-].
      * by intros [= <-].
    + intros Hnull. rewrite Hnull.
      by destruct (member "results" data).
    + by intros ->.
    + by intros ->.
Qed.

End HandlerFacts.

(** ** The properties at sample inputs *)

Section Instances.

Import JS Net Hubspot Samples.

Local Abbreviation token := "pat-na1-sample".
Local Abbreviation spread_error := "TypeError: not iterable".
Local Abbreviation json_error := (λ _ : Response, "FetchError: invalid json").

(** 181 identifiers, a remote that finds every one of them: three
    calls, carrying 90, 90 and 1 identifiers, and the 181 records in the
    reply in input order. *)
Lemma batch_read_groups_of_ninety_witness :
  let ids := ids_upto 181 in
  let record := λ id, VObj [("id", VStr id)] in
  let run := handler token finds_all spread_error
               (Batch_read "contacts" ids None) [] in
  length ids = 181%nat ∧
  Forall2 answers_with (map snd run.2)
    [map record (take 90 ids); map record (take 90 (drop 90 ids));
     map record (drop 180 ids)] ∧
  map inputs_sent (map fst run.2)
  = [take 90 ids; take 90 (drop 90 ids); drop 180 ids] ∧
  length run.2 = 3%nat ∧
  run.1 = inr (asText (VObj [("ok", VBool true);
                             ("results", VArr (map record ids))])
                 (Some "batch_read")).
Proof.
  intros ids record run.
  assert (length ids = 181%nat) as Hlen by (vm_compute; reflexivity).
  set (arrays := [map record (take 90 ids); map record (take 90 (drop 90 ids));
                  map record (drop 180 ids)]).
  assert (map snd run.2
          = [Responds (found (take 90 ids));
             Responds (found (take 90 (drop 90 ids)));
             Responds (found (drop 180 ids))]) as Hanswers
    by (vm_compute; reflexivity).
  assert (Forall2 answers_with (map snd run.2) arrays) as Harrays.
  { rewrite Hanswers. unfold arrays.
    repeat constructor; eexists _, _; split_and!; reflexivity. }
  pose proof (batch_read_groups_of_ninety token finds_all spread_error
                "contacts" ids None) as Hthm.
  cbv zeta in Hthm.
  destruct Hthm as (_ & _ & _ & _ & _ & _ & _ & Hall & _).
  destruct (Hall arrays Harrays) as (Hrequests & Hcount & Hreply).
  split_and!.
  - exact Hlen.
  - exact Harrays.
  - unfold run. rewrite Hrequests. vm_compute. reflexivity.
  - exact Hcount.
  - unfold run. rewrite Hreply. vm_compute. reflexivity.
Defined.

(** 91 identifiers, the second call answered with a 500: the reply is the
    failure envelope, without the results of the first group. *)
Lemma batch_read_fails_as_a_whole_witness :
  let ids := ids_upto 91 in
  let run := handler token fails_after_first spread_error
               (Batch_read "contacts" ids None) [] in
  let req := batch_read_request token "contacts" [] ["91"] in
  (req, Responds server_error) ∈ run.2 ∧
  ok server_error = false ∧
  run.1 = inr {| content :=
    [TextItem (JSON_stringify
       (VObj [("label", VStr "batch_read_error");
              ("data",
               VObj [("ok", VBool false);
                     ("error", VStr "Error: HubSpot batch contacts 500 oops")])]))] |}.
Proof.
  intros ids run req.
  assert ((req, Responds server_error) ∈ run.2) as Hin.
  { apply list_elem_of_lookup. exists 1%nat. vm_compute. reflexivity. }
  assert (ok server_error = false) as Hok by reflexivity.
  split_and!; [exact Hin|exact Hok|].
  exact (batch_read_fails_as_a_whole token fails_after_first spread_error
           "contacts" ids None req server_error Hin Hok).
Defined.

(** C7 at an input where the code departs from it: a 200 whose body is
    not JSON.  [hubspot_contacts_search] replies with a success envelope,
    not with a failure envelope. *)
Lemma non_json_body_reported_as_success :
  let run := handler token (always html_page) spread_error
               (Contacts_search None None None) [] in
  map snd run.2 = [Responds html_page] ∧
  ok html_page = true ∧
  json html_page
    = SyntaxError "SyntaxError: Unexpected token < in JSON at position 0" ∧
  run.1 = inr (asText (VObj [("ok", VBool true); ("count", VNum 0);
                             ("results", VArr []); ("paging", VNull)])
                 (Some "contacts")) ∧
  ∀ error, run.1 ≠ inr (asText (VObj [("ok", VBool false); ("error", error)])
                          (Some "contacts_error")).
Proof.
  intros run. split_and!; try reflexivity.
  intros error. vm_compute. intros [=].
Qed.

(** A 500 becomes the failure envelope with status and body; the handler
    returns. *)
Lemma remote_failure_reply_witness :
  let call := Contacts_search None None None in
  let run := handler token (always server_error) spread_error call [] in
  (∃ req, (req, Responds server_error) ∈ run.2) ∧
  ok server_error = false ∧
  run.1 = inr (asText (VObj [("ok", VBool false);
                             ("error", VStr "Error: HubSpot 500 oops")])
                 (Some "contacts_error")) ∧
  (∃ before, "Error: HubSpot 500 oops" = before +:+ "500" +:+ " " +:+ "oops").
Proof.
  intros call run.
  pose proof (remote_failure_reply token (always server_error) spread_error
                json_error call) as Hthm.
  cbv zeta in Hthm. destruct Hthm as (_ & Hstatus & _).
  assert (∃ req, (req, Responds server_error) ∈ run.2) as [req Hin].
  { eexists. apply list_elem_of_lookup. exists 0%nat. vm_compute. reflexivity. }
  assert (ok server_error = false) as Hok by reflexivity.
  destruct (Hstatus req server_error Hin Hok) as [Hreply Hends].
  split_and!; [by exists req|exact Hok|exact Hreply|exact Hends].
Defined.

(** C8 at an input where the code departs from it: [hubspot.deals.search]
    of [server.js], on a 200 with two results, replies with the response
    as a [json] item; there is no envelope. *)
Lemma legacy_deals_search_has_no_envelope :
  let run := Legacy.hubspot_deals_search token (always two_results) json_error
               (Some "closedwon") None [] in
  map snd run.2 = [Responds two_results] ∧
  status two_results = 200%Z ∧
  run.1 = inr {| content :=
            [JsonItem (VObj [("results", VArr [VObj []; VObj []]);
                             ("paging", VObj [])])] |} ∧
  run.1 ≠ inr (asText (VObj [("ok", VBool true); ("count", VNum 2);
                             ("results", VArr [VObj []; VObj []]);
                             ("paging", VObj [])])
                 (Some "deals")) ∧
  ∀ envelope label, run.1 ≠ inr (asText envelope label).
Proof.
  intros run. split_and!; try reflexivity.
  - vm_compute. intros [=].
  - intros envelope label. unfold asText. vm_compute. intros [=].
Qed.

Lemma deals_search_closedwon_witness :
  let remote := always two_results in
  let run := handler token remote spread_error
               (Deals_search (Some "closedwon") None None None) [] in
  map snd run.2 = [Responds two_results] ∧
  status two_results = 200%Z ∧
  json two_results = Parses (VObj [("results", VArr [VObj []; VObj []]);
                                   ("paging", VObj [])]) ∧
  length run.2 = 1%nat ∧
  run.1 = inr (asText (VObj [("ok", VBool true); ("count", VNum 2);
                             ("results", VArr [VObj []; VObj []]);
                             ("paging", VObj [])])
                 (Some "deals")).
Proof.
  intros remote run.
  pose proof (deals_search_closedwon token remote spread_error json_error)
    as Hthm.
  cbv zeta in Hthm. destruct Hthm as (Hcalls & Hreply & _).
  split_and!.
  - reflexivity.
  - reflexivity.
  - reflexivity.
  - rewrite <- (length_map fst). unfold run. by rewrite Hcalls.
  - exact (Hreply two_results _ [VObj []; VObj []]
             eq_refl eq_refl eq_refl eq_refl).
Defined.

Lemma owners_list_defaults_witness :
  let remote := always two_results in
  let run := handler token remote spread_error (Owners_list None None) [] in
  ok two_results = true ∧
  map (λ c, (url c.1, searchParams c.1)) run.2
  = [("https://api.hubapi.com/crm/v3/owners/", [("limit", "100")])] ∧
  ∃ envelope,
    run.1 = inr (asText (VObj envelope) (Some "owners")) ∧
    obj_get "ok" envelope = Some (VBool true) ∧
    obj_get "results" envelope = Some (VArr [VObj []; VObj []]) ∧
    obj_get "paging" envelope = Some (VObj []).
Proof.
  intros remote run.
  pose proof (owners_list_defaults token remote spread_error) as Hthm.
  cbv zeta in Hthm. destruct Hthm as (_ & _ & Hreply).
  destruct (Hreply two_results eq_refl eq_refl)
    as (envelope & Henv & Hfields & Hok & _).
  split_and!; [reflexivity|reflexivity|].
  exists envelope. split_and!.
  - exact Henv.
  - apply Hok. reflexivity.
  - apply Hfields. reflexivity.
  - apply Hfields. reflexivity.
Defined.

Lemma search_envelope_counts_results_witness :
  let call := Recently_modified "deals" 1700000000000 None None in
  let run := handler token (always two_results) spread_error call [] in
  is_search call = true ∧
  run.1 = inr (asText (search_envelope (received two_results))
                 (Some "recently_modified")) ∧
  member "count" (search_envelope (received two_results)) = VNum 2 ∧
  member "paging" (search_envelope (VObj [])) = VNull ∧
  member "results" (search_envelope (VObj [])) = VArr [] ∧
  member "count" (search_envelope (VObj [])) = VNum 0.
Proof.
  intros call run.
  assert (is_search call = true) as Hsearch by reflexivity.
  pose proof (search_envelope_counts_results token (always two_results)
                spread_error call Hsearch) as Hthm.
  cbv zeta in Hthm. destruct Hthm as ((req & Htrace & Hreply) & Henvelope).
  destruct (Henvelope (received two_results)) as (_ & _ & Hcount & _).
  destruct (Henvelope (VObj [])) as (_ & _ & _ & Hresults & Hpaging & _).
  destruct (Hresults eq_refl) as [Hempty Hzero].
  split_and!.
  - exact Hsearch.
  - exact (Hreply two_results eq_refl eq_refl).
  - exact (Hcount [VObj []; VObj []] eq_refl).
  - exact (Hpaging eq_refl).
  - exact Hempty.
  - exact Hzero.
Defined.

End Instances.

(** * Further properties of the code *)

(** ** The registry over its life *)

Section RegistryLife.

Import Registry.

Implicit Types (transports : gmap string Transport) (t : Transport).

(** X1.  Whatever streams were opened and closed, every entry of the
    registry is stored under the identifier of its own transport. *)
Theorem registry_entries_under_own_id (events : list Event) sid t :
  run events !! sid = Some t → sessionId t = sid.
Proof.
  unfold run.
  assert (∀ transports,
            (∀ k u, transports !! k = Some u → sessionId u = k) →
            ∀ k u, fold_left step events transports !! k = Some u →
                   sessionId u = k) as Hinv.
  { induction events as [|e events IH]; intros transports Hkeys; [done|].
    simpl. apply IH. intros k u.
    destruct e as [t'|t']; simpl; unfold sse_open, sse_close.
    - rewrite lookup_insert.
      case_decide as Hk; [by intros [= <-]|by apply Hkeys].
    - rewrite lookup_delete.
      case_decide; [done|by apply Hkeys]. }
  apply Hinv. intros k u. by rewrite lookup_empty.
Qed.

Lemma registry_entries_under_own_id_witness :
  let events := [Open Samples.session_a; Open Samples.session_b;
                 Close Samples.session_a] in
  run events !! sessionId Samples.session_b = Some Samples.session_b ∧
  sessionId Samples.session_b = sessionId Samples.session_b.
Proof.
  intros events.
  assert (run events !! sessionId Samples.session_b = Some Samples.session_b)
    as Hreg by reflexivity.
  split; [exact Hreg|].
  exact (registry_entries_under_own_id events _ _ Hreg).
Defined.

(** X2.  Opening a stream under an identifier that is not registered and
    closing it again leaves the registry exactly as it was. *)
Theorem open_then_close_restores transports t :
  transports !! sessionId t = None →
  sse_close t (sse_open t transports) = transports.
Proof.
  intros Hfresh. unfold sse_close, sse_open.
  rewrite delete_insert_eq. by apply delete_id.
Qed.

Lemma open_then_close_restores_witness :
  let transports := sse_open Samples.session_a ∅ in
  transports !! sessionId Samples.session_b = None ∧
  sse_close Samples.session_b (sse_open Samples.session_b transports)
  = transports.
Proof.
  intros transports.
  assert (transports !! sessionId Samples.session_b = None) as Hfresh
    by reflexivity.
  split; [exact Hfresh|].
  exact (open_then_close_restores transports Samples.session_b Hfresh).
Defined.

(** X3.  Streams that open or close under other identifiers do not change
    what a post with a given [sessionId] does, whether that identifier is
    registered or not. *)
Theorem other_sessions_do_not_interfere (events : list Event)
    transports sid body :
  Forall (λ e, ¬ concerns sid e) events →
  post_messages (fold_left step events transports) sid body
  = post_messages transports sid body.
Proof.
  intros Hother. revert transports.
  induction Hother as [|e events He _ IH]; intros transports; [done|].
  simpl. rewrite IH. unfold post_messages, get.
  destruct e as [t'|t']; simpl in *; unfold sse_open, sse_close.
  - by rewrite lookup_insert_ne.
  - by rewrite lookup_delete_ne.
Qed.

Lemma other_sessions_do_not_interfere_witness :
  let events := [Open Samples.session_b; Close Samples.session_b] in
  let transports := sse_open Samples.session_a ∅ in
  let sid := sessionId Samples.session_a in
  Forall (λ e, ¬ concerns sid e) events ∧
  post_messages (fold_left step events transports) sid (JS.VStr "ping")
  = post_messages transports sid (JS.VStr "ping").
Proof.
  intros events transports sid.
  assert (Forall (λ e, ¬ concerns sid e) events) as Hother
    by (repeat constructor; by vm_compute).
  split; [exact Hother|].
  exact (other_sessions_do_not_interfere events transports sid _ Hother).
Defined.

End RegistryLife.

(** ** Groups of any size *)

Section ChunkEdges.

Import JS Hubspot.

Context {A : Type}.
Implicit Types (arr : list A).

(** X4.  For every positive [size], [chunk] loses and reorders nothing:
    the groups put end to end are the input, there are ceil(N/size) of
    them, and each holds at least one and at most [size] elements. *)
Theorem chunk_partitions arr size :
  (0 < size)%nat →
  concat (chunk arr size) = arr ∧
  length (chunk arr size) = ceil_div (length arr) size ∧
  Forall (λ group, 1 <= length group <= size)%nat (chunk arr size).
Proof.
  intros Hsize. split_and!.
  - by apply concat_chunk.
  - by apply length_chunk.
  - apply Forall_lookup. intros j group Hj.
    pose proof (lookup_lt_Some _ _ _ Hj) as Hlt.
    rewrite length_chunk in Hlt by done.
    destruct (length_chunk_group arr size j group Hsize Hj) as [Hfull Hlast].
    destruct (decide (S j = ceil_div (length arr) size)) as [Heq|Hne].
    + destruct (Hlast Heq). lia.
    + rewrite Hfull by lia. lia.
Qed.

Lemma ceil_div_small n size :
  (0 < n <= size)%nat → ceil_div n size = 1%nat.
Proof.
  intros [Hn Hle]. rewrite (ceil_div_step n size) by lia.
  replace (n - size)%nat with 0%nat by lia. rewrite ceil_div_0; lia.
Qed.

Lemma chunk_one_group arr size :
  (0 < length arr <= size)%nat → chunk arr size = [arr].
Proof.
  intros Hlen. rewrite chunk_groups by lia.
  rewrite ceil_div_small by done. simpl. unfold group_at, slice. simpl.
  rewrite Nat.add_0_r, Nat.sub_0_r, drop_0. by rewrite take_ge by lia.
Qed.

(** X5.  A non-empty list of at most [size] elements is a single group:
    the list itself. *)
Theorem chunk_short_is_one_group arr size :
  (0 < length arr <= size)%nat → chunk arr size = [arr].
Proof. apply chunk_one_group. Qed.

End ChunkEdges.

Lemma chunk_partitions_witness :
  (0 < 3)%nat ∧
  concat (Hubspot.chunk [1; 2; 3; 4; 5; 6; 7]%nat 3) = [1; 2; 3; 4; 5; 6; 7]%nat ∧
  length (Hubspot.chunk [1; 2; 3; 4; 5; 6; 7]%nat 3) = Hubspot.ceil_div 7 3 ∧
  Forall (λ group, 1 <= length group <= 3)%nat
         (Hubspot.chunk [1; 2; 3; 4; 5; 6; 7]%nat 3).
Proof.
  assert (0 < 3)%nat as Hsize by lia.
  split; [exact Hsize|].
  exact (chunk_partitions [1; 2; 3; 4; 5; 6; 7]%nat 3 Hsize).
Defined.

Lemma chunk_short_is_one_group_witness :
  (0 < length [1; 2; 3]%nat <= 90)%nat ∧
  Hubspot.chunk [1; 2; 3]%nat 90 = [[1; 2; 3]%nat].
Proof.
  assert (0 < length [1; 2; 3]%nat <= 90)%nat as Hlen by (simpl; lia).
  split; [exact Hlen|].
  exact (chunk_short_is_one_group [1; 2; 3]%nat 90 Hlen).
Defined.

(** ** Tool handlers: requests, bounds and edge cases *)

Section HandlerEdges.

Import JS Net Hubspot.

Variable HUBSPOT_TOKEN : string.
Variable remote : Remote.
Variable not_iterable : string.
Variable invalid_json : Response → string.

Local Abbreviation handler := (Hubspot.handler HUBSPOT_TOKEN remote not_iterable).
Local Abbreviation post_request := (Hubspot.post_request HUBSPOT_TOKEN).
Local Abbreviation get_request := (Hubspot.get_request HUBSPOT_TOKEN).
Local Abbreviation batch_read_request := (Hubspot.batch_read_request HUBSPOT_TOKEN).
Local Abbreviation batch_read_loop :=
  (Hubspot.batch_read_loop HUBSPOT_TOKEN remote not_iterable).
Local Abbreviation collected := (Hubspot.collected not_iterable).
Local Abbreviation to_hubspot := (Hubspot.to_hubspot HUBSPOT_TOKEN).
Local Abbreviation diag_contacts := (Hubspot.diag_contacts HUBSPOT_TOKEN remote).

Implicit Types (tr : Trace) (res : Response) (req : Request).

(** *** Where the calls go *)

Lemma to_hubspot_batch_read object properties part :
  to_hubspot (batch_read_request object properties part).
Proof.
  split_and!.
  - reflexivity.
  - simpl. unfold post_headers. apply elem_of_cons. by left.
  - simpl. split; [|by eexists].
    unfold post_headers. apply elem_of_cons. right. apply elem_of_cons. by left.
Qed.

Ltac prove_to_hubspot :=
  split_and!;
  [ reflexivity
  | simpl; unfold post_headers, get_headers; apply elem_of_cons; by left
  | simpl; first
      [ reflexivity
      | split; [unfold post_headers; apply elem_of_cons; right;
                apply elem_of_cons; by left
               |by eexists] ] ].

Ltac unfold_handler :=
  unfold hubspot_contacts_search, hubspot_companies_search,
    hubspot_deals_search, hubspot_owners_list, hubspot_properties,
    hubspot_pipelines, hubspot_paginate, hubspot_recently_modified,
    hubspot_search_advanced, Hubspot.hsPOST, Hubspot.hsGET.

(** The one request of each tool that issues a single call. *)
Lemma single_call_to_hubspot call :
  (∀ object ids properties, call ≠ Batch_read object ids properties) →
  ∃ req, to_hubspot req ∧
    ∀ tr, handler call tr
          = (inr (outcome_reply call (remote (map fst tr) req)),
             tr ++ [(req, remote (map fst tr) req)]).
Proof.
  intros Hsingle.
  destruct call as [| | | | | | |o i p|f t ids| |]; simpl.
  8: by destruct (Hsingle o i p).
  8: { exists (associations_request HUBSPOT_TOKEN f t ids). split.
       - split_and!.
         + reflexivity.
         + simpl. unfold post_headers. apply elem_of_cons. by left.
         + simpl. split; [|by eexists]. unfold post_headers.
           apply elem_of_cons. right. apply elem_of_cons. by left.
       - intros tr.
         unfold hubspot_associations_batch, try_catch, bind.
         rewrite fetch_run. unfold outcome_reply.
         destruct (remote (map fst tr) _) as [str|res]; [reflexivity|].
         simpl. destruct (ok res); simpl; [|reflexivity].
         destruct (json res); reflexivity. }
  all: eexists; split;
    [|intros tr; unfold_handler; by apply (helper_tool_run remote)];
    prove_to_hubspot.
Qed.

(** X6.  Every request of every tool is sent over https to the host
    [api.hubapi.com], whatever the arguments of the tool, and carries the
    bearer token of the process; a POST has the JSON content type and a
    body, a GET has no body.  The path under that host depends on the
    arguments and is not constrained. *)
Theorem every_call_goes_to_hubspot call req o :
  (req, o) ∈ (handler call []).2 → to_hubspot req.
Proof.
  assert ((∀ object ids properties, call ≠ Batch_read object ids properties)
          ∨ ∃ object ids properties, call = Batch_read object ids properties)
    as [Hsingle|(object & ids & properties & ->)]
    by (destruct call; eauto 10).
  - destruct (single_call_to_hubspot call Hsingle) as (req0 & Hreq0 & Hrun).
    rewrite Hrun. simpl. intros Hin.
    apply list_elem_of_singleton in Hin. by injection Hin as -> ->.
  - simpl. rewrite hubspot_batch_read_run. cbv zeta. simpl.
    destruct (batch_read_loop_run HUBSPOT_TOKEN remote not_iterable object
                (default [] properties) (chunk ids chunk_size) [] [])
      as (calls & Htr & [rest Hprefix] & _).
    rewrite Htr. simpl. intros Hin.
    assert (req ∈ map fst calls) as Hreq
      by (apply list_elem_of_fmap; by exists (req, o)).
    assert (req ∈ map (batch_read_request object (default [] properties))
                    (chunk ids chunk_size)) as Hreq'
      by (rewrite Hprefix; apply elem_of_app; by left).
    apply list_elem_of_fmap in Hreq' as (part & -> & _).
    apply to_hubspot_batch_read.
Qed.

(** *** How many calls *)

(** X7.  A tool issues at most ceil(N/90) calls when it is
    [hubspot_batch_read] on N identifiers, and exactly one call otherwise,
    whatever the remote answers; it never touches the calls recorded
    before it. *)
Theorem calls_are_bounded call tr :
  ∃ calls, (handler call tr).2 = tr ++ calls ∧
           (length calls <= calls_bound call)%nat ∧
           ((∀ object ids properties, call ≠ Batch_read object ids properties) →
            length calls = 1%nat).
Proof.
  assert ((∀ object ids properties, call ≠ Batch_read object ids properties)
          ∨ ∃ object ids properties, call = Batch_read object ids properties)
    as [Hsingle|(object & ids & properties & ->)]
    by (destruct call; eauto 10).
  - destruct (single_call_to_hubspot call Hsingle) as (req & _ & Hrun).
    rewrite Hrun. eexists. split_and!; [done| |done].
    simpl. by destruct call as [| | | | | | |o i p| | |];
      [..|destruct (Hsingle o i p)| | |].
  - simpl. rewrite hubspot_batch_read_run. cbv zeta. simpl.
    destruct (batch_read_loop_run HUBSPOT_TOKEN remote not_iterable object
                (default [] properties) (chunk ids chunk_size) [] tr)
      as (calls & Htr & Hprefix & _).
    exists calls. split_and!.
    + done.
    + apply prefix_length in Hprefix. rewrite !length_map in Hprefix.
      rewrite length_chunk in Hprefix by (unfold chunk_size; lia). done.
    + intros Hsingle. by destruct (Hsingle object ids properties).
Qed.

(** *** Batch reads at the edges *)

(** X8.  Without identifiers [hubspot_batch_read] calls nothing and
    replies with success and no results. *)
Theorem batch_read_without_ids object properties tr :
  handler (Batch_read object [] properties) tr
  = (inr (asText (VObj [("ok", VBool true); ("results", VArr [])])
            (Some "batch_read")), tr).
Proof. reflexivity. Qed.

Lemma inputs_sent_batch_read object properties part :
  inputs_sent (batch_read_request object properties part) = part.
Proof.
  unfold inputs_sent. simpl.
  induction part as [|id part IH]; [done|].
  simpl. f_equal. exact IH.
Qed.

(** X9.  With one to ninety identifiers [hubspot_batch_read] issues a
    single call that carries them all, in input order, and its reply is
    decided by the answer to that call. *)
Theorem batch_read_upto_ninety object (ids : list string) properties :
  (0 < length ids <= 90)%nat →
  let req := batch_read_request object (default [] properties) ids in
  let run := handler (Batch_read object ids properties) [] in
  run.2 = [(req, remote [] req)] ∧
  inputs_sent req = ids ∧
  run.1 = inr match collected object (remote [] req) with
              | inr items =>
                  asText (VObj [("ok", VBool true); ("results", VArr items)])
                    (Some "batch_read")
              | inl e =>
                  asText (VObj [("ok", VBool false);
                                ("error", VStr (String_of e))])
                    (Some "batch_read_error")
              end.
Proof.
  intros Hlen req run.
  assert (run = (inr match collected object (remote [] req) with
                     | inr items =>
                         asText (VObj [("ok", VBool true);
                                       ("results", VArr items)])
                           (Some "batch_read")
                     | inl e =>
                         asText (VObj [("ok", VBool false);
                                       ("error", VStr (String_of e))])
                           (Some "batch_read_error")
                     end, [(req, remote [] req)])) as Hrun.
  { unfold run. simpl. rewrite hubspot_batch_read_run. cbv zeta.
    rewrite (chunk_one_group ids chunk_size) by done.
    rewrite batch_read_loop_cons. cbv zeta. simpl map. fold req.
    by destruct (collected object (remote [] req)). }
  rewrite Hrun. split_and!; [done| |done].
  apply inputs_sent_batch_read.
Qed.

(** X10.  In a run of [hubspot_batch_read] a call that fails — rejected,
    non-2xx, not JSON, or with results that cannot be spread — is the
    last call: no later group is sent. *)
Theorem batch_read_stops_at_failure object ids properties i req o e :
  let run := handler (Batch_read object ids properties) [] in
  run.2 !! i = Some (req, o) → collected object o = inl e →
  S i = length run.2.
Proof.
  intros run. unfold run.
  change (handler (Batch_read object ids properties) [])
    with (hubspot_batch_read HUBSPOT_TOKEN remote not_iterable
            object ids properties []).
  rewrite hubspot_batch_read_run. cbv zeta.
  destruct (batch_read_loop_run HUBSPOT_TOKEN remote not_iterable object
              (default [] properties) (chunk ids chunk_size) [] [])
    as (calls & Htr & _ & _ & Hres).
  unfold snd at 1 3. rewrite Htr, app_nil_l. unfold Trace.
  intros Hi Hfail.
  assert (∀ l j, Forall (λ c, succeeds not_iterable object c.2) l →
                 l !! j = Some (req, o) → False) as Hclash.
  { intros l j Hl Hj. rewrite Forall_lookup in Hl.
    destruct (Hl _ _ Hj) as [items Hitems]. simpl in Hitems. congruence. }
  destruct (batch_read_loop _ _ _ _ _).1 as [e'|all].
  - destruct Hres as (calls0 & c & -> & Hok & _).
    rewrite length_app. simpl.
    destruct (decide (i < length calls0)%nat) as [Hlt|Hge].
    + rewrite lookup_app_l in Hi by done. by destruct (Hclash _ _ Hok Hi).
    + apply lookup_lt_Some in Hi. rewrite length_app in Hi. simpl in Hi. lia.
  - destruct Hres as (_ & Hok & _). by destruct (Hclash _ _ Hok Hi).
Qed.

(** X11.  The identifiers carried by the calls of [hubspot_batch_read],
    in call order, are an initial part of the input: none is sent twice,
    skipped or moved.  When the reply is a success they are the whole
    input. *)
Theorem batch_read_sends_ids_once object ids properties :
  let run := handler (Batch_read object ids properties) [] in
  concat (map inputs_sent (map fst run.2)) `prefix_of` ids ∧
  (∀ all,
     run.1 = inr (asText (VObj [("ok", VBool true); ("results", VArr all)])
                    (Some "batch_read")) →
     concat (map inputs_sent (map fst run.2)) = ids).
Proof.
  simpl. rewrite hubspot_batch_read_run. cbv zeta. simpl.
  destruct (batch_read_loop_run HUBSPOT_TOKEN remote not_iterable object
              (default [] properties) (chunk ids chunk_size) [] [])
    as (calls & Htr & [rest Hprefix] & _ & Hres).
  rewrite Htr. simpl.
  assert (map inputs_sent
            (map (batch_read_request object (default [] properties))
               (chunk ids chunk_size)) = chunk ids chunk_size) as Hparts.
  { rewrite map_map. rewrite <- (map_id (chunk ids chunk_size)) at 2.
    apply map_ext. intros part. apply inputs_sent_batch_read. }
  assert (concat (chunk ids chunk_size) = ids) as Hids
    by (apply concat_chunk; unfold chunk_size; lia).
  split.
  - exists (concat (map inputs_sent rest)).
    rewrite <- concat_app, <- map_app, <- Hprefix, Hparts. done.
  - intros all.
    destruct (batch_read_loop _ _ _ _ _).1 as [e|all']; [intros [=]|].
    destruct Hres as (Hall & _). intros _. by rewrite Hall, Hparts.
Qed.

(** X12.  A 2xx JSON answer whose [results] is truthy but cannot be
    spread (an object, a number, [true]) makes [hubspot_batch_read] reply
    with the failure envelope carrying the text of the TypeError. *)
Theorem batch_read_results_not_iterable object ids properties req res data :
  let run := handler (Batch_read object ids properties) [] in
  (req, Responds res) ∈ run.2 → ok res = true → json res = Parses data →
  truthy (member "results" data) = true →
  iterate (member "results" data) = None →
  run.1 = inr (asText (VObj [("ok", VBool false);
                             ("error", VStr not_iterable)])
                 (Some "batch_read_error")).
Proof.
  intros run Hin Hok Hjson Htruthy Hiter. unfold run.
  rewrite (batch_read_failed_call HUBSPOT_TOKEN remote not_iterable
             object ids properties req (Responds res) (Raised not_iterable) Hin).
  - reflexivity.
  - unfold Hubspot.collected, Hubspot.batch_read_collect.
    by rewrite Hok, Hjson, Htruthy, Hiter.
Qed.

(** *** Query strings *)

Lemma params_set_fresh k v (params : list (string * string)) :
  k ∉ map fst params → params_set k v params = params ++ [(k, v)].
Proof.
  induction params as [|[k' w] rest IH]; simpl; [done|].
  intros Hfresh. apply not_elem_of_cons in Hfresh as [Hne Hrest].
  destruct (String.eqb k k') eqn:E.
  - by apply String.eqb_eq in E.
  - by rewrite IH.
Qed.

Lemma get_request_params path (query : list (string * QueryValue)) :
  NoDup (map fst query) →
  searchParams (get_request path query) = omap param_of query.
Proof.
  intros Hkeys.
  unfold Hubspot.get_request. simpl.
  assert (∀ acc : list (string * string),
            (∀ k, k ∈ map fst acc → k ∉ map fst query) →
            fold_left (λ params kv,
                         if query_keeps kv.2
                         then params_set kv.1 (query_String kv.2) params
                         else params) query acc
            = acc ++ omap param_of query) as Hfold.
  { induction query as [|[k v] query IH]; intros acc Hdisjoint; simpl.
    - by rewrite app_nil_r.
    - apply NoDup_cons in Hkeys as [Hk Hkeys].
      unfold param_of at 1. simpl. destruct (query_keeps v).
      + rewrite params_set_fresh.
        * rewrite IH; [by rewrite <- app_assoc|done|].
          intros k'. rewrite map_app. simpl. intros Hk'.
          apply elem_of_app in Hk' as [Hk'|Hk'].
          -- specialize (Hdisjoint k' Hk'). simpl in Hdisjoint.
             by apply not_elem_of_cons in Hdisjoint as [_ ?].
          -- apply list_elem_of_singleton in Hk' as ->. done.
        * intros Hin. specialize (Hdisjoint k Hin). simpl in Hdisjoint.
          apply Hdisjoint. by left.
      + apply IH; [done|]. intros k' Hk'.
        specialize (Hdisjoint k' Hk'). simpl in Hdisjoint.
        by apply not_elem_of_cons in Hdisjoint as [_ ?]. }
  rewrite Hfold; [done|]. intros k Hk. simpl in Hk. by apply elem_of_nil in Hk.
Qed.

Lemma param_of_Some k v w :
  param_of (k, w) = Some (k, v) ↔
  w ≠ QUndefined ∧ w ≠ QNull ∧ w ≠ QStr "" ∧ v = query_String w.
Proof.
  unfold param_of. simpl. destruct w as [| |s|n]; simpl.
  - split; [done|]. by intros (? & _).
  - split; [done|]. by intros (_ & ? & _).
  - destruct (String.eqb s "") eqn:E; simpl.
    + apply String.eqb_eq in E as ->. split; [done|]. by intros (_ & _ & ? & _).
    + apply String.eqb_neq in E. split.
      * intros [= ->]. split_and!; try done. by intros [= ->].
      * by intros (_ & _ & _ & ->).
  - split; [by intros [= ->]|by intros (_ & _ & _ & ->)].
Qed.

(** X13.  For a path that has no query or fragment of its own (no [?],
    no [#]) and a query object, [hsGET] sends as query string exactly the
    parameters whose value is not undefined, not [null] and not the empty
    string, in the order of the object and with [String(value)] as
    value. *)
Theorem hsGET_keeps_defined_parameters path (query : list (string * QueryValue)) :
  plain_path path = true →
  NoDup (map fst query) →
  searchParams (get_request path query) = omap param_of query ∧
  ∀ k v, (k, v) ∈ searchParams (get_request path query) ↔
         ∃ w, (k, w) ∈ query ∧ w ≠ QUndefined ∧ w ≠ QNull ∧ w ≠ QStr ""
              ∧ v = query_String w.
Proof.
  intros _ Hkeys. rewrite (get_request_params path query Hkeys).
  split; [done|]. intros k v. rewrite list_elem_of_omap. split.
  - intros ([k' w] & Hin & Hparam).
    assert (k' = k) as ->.
    { unfold param_of in Hparam. simpl in Hparam.
      destruct (query_keeps w); [by injection Hparam|done]. }
    exists w. split; [done|]. by apply (param_of_Some k v w).
  - intros (w & Hin & Hw). exists (k, w). split; [done|].
    by apply (param_of_Some k v w).
Qed.

(** *** Arguments that are empty *)

(** X14.  An optional string argument given as the empty string is
    treated as absent: the search tools send no filter for it, the
    listing tools no [after] cursor. *)
Theorem empty_argument_is_absent tr :
  (∀ query properties limit,
     handler (Contacts_search query properties limit) tr
     = handler (Contacts_search (blank query) properties limit) tr) ∧
  (∀ query properties limit,
     handler (Companies_search query properties limit) tr
     = handler (Companies_search (blank query) properties limit) tr) ∧
  (∀ stage pipeline properties limit,
     handler (Deals_search stage pipeline properties limit) tr
     = handler (Deals_search (blank stage) (blank pipeline) properties limit) tr) ∧
  (∀ after limit,
     handler (Owners_list after limit) tr
     = handler (Owners_list (blank after) limit) tr) ∧
  (∀ object after properties limit,
     handler (Paginate object after properties limit) tr
     = handler (Paginate object (blank after) properties limit) tr).
Proof.
  split_and!.
  - by intros [[|c s]|] ??.
  - by intros [[|c s]|] ??.
  - by intros [[|c s]|] [[|c' s']|] ??.
  - by intros [[|c s]|] ?.
  - by intros object [[|c s]|] ??.
Qed.

(** X15.  [hubspot_search_advanced] posts [filterGroups], [properties]
    and [limit] as given, followed by [sorts] exactly when [sorts] is
    truthy; a [sorts] that is undefined, [null], [false], 0 or the empty
    string is left out. *)
Theorem search_advanced_body object filterGroups properties limit sorts tr :
  let body :=
    VObj ([("filterGroups", filterGroups);
           ("properties", strings (default [] properties));
           ("limit", VNum (default 50%Z limit))]
          ++ if truthy sorts then [("sorts", sorts)] else []) in
  let req := post_request ("/crm/v3/objects/" +:+ object +:+ "/search") body in
  (handler (Search_advanced object filterGroups properties limit sorts) tr).2
  = tr ++ [(req, remote (map fst tr) req)].
Proof.
  intros body req. simpl. unfold_handler.
  rewrite (helper_tool_run remote
             (Search_advanced object filterGroups properties limit sorts))
    by done.
  simpl. unfold req, body. by destruct (truthy sorts).
Qed.

(** *** Envelopes at the edges *)

Lemma passthrough_is_single call :
  is_passthrough call = true →
  ∀ object ids properties, call ≠ Batch_read object ids properties.
Proof. by intros Hpass ??? ->. Qed.

(** X16.  The five tools that reply with [{ok: true, ...data}] copy every
    top-level property of a 2xx JSON answer into the envelope, [ok]
    included: when the answer has its own [ok], the envelope carries that
    one and not [true]. *)
Theorem passthrough_envelope_fields call req res data :
  is_passthrough call = true →
  (req, Responds res) ∈ (handler call []).2 →
  ok res = true → json res = Parses data →
  ∃ envelope,
    (handler call []).1
    = inr (asText (VObj envelope) (Some (success_label call))) ∧
    obj_get "ok" envelope
    = Some (default (VBool true) (obj_get "ok" (own_props data))) ∧
    ∀ k, k ≠ "ok" → obj_get k envelope = obj_get k (own_props data).
Proof.
  intros Hpass Hin Hok Hjson.
  exists (spread_into [("ok", VBool true)] data). split_and!.
  - rewrite (single_call_outcome HUBSPOT_TOKEN remote not_iterable call req _
               (passthrough_is_single call Hpass) Hin).
    unfold outcome_reply, received. rewrite Hok, Hjson. simpl.
    by destruct call.
  - rewrite obj_get_spread. by destruct (obj_get "ok" (own_props data)).
  - intros k Hne. rewrite obj_get_spread.
    destruct (obj_get k (own_props data)); [done|]. simpl.
    destruct (String.eqb k "ok") eqn:E; [|done]. by apply String.eqb_eq in E.
Qed.

(** X17.  When the body of a 2xx answer is not a JSON object — an array,
    a number, a string, [null], or text that is not JSON — each search
    tool replies with the empty success envelope. *)
Theorem search_reply_without_object call req res :
  is_search call = true →
  (req, Responds res) ∈ (handler call []).2 →
  ok res = true → (∀ props, received res ≠ VObj props) →
  (handler call []).1
  = inr (asText (VObj [("ok", VBool true); ("count", VNum 0);
                       ("results", VArr []); ("paging", VNull)])
           (Some (success_label call))).
Proof.
  intros Hsearch Hin Hok Hshape.
  assert (∀ object ids properties, call ≠ Batch_read object ids properties)
    as Hsingle by (by intros ??? ->).
  rewrite (single_call_outcome HUBSPOT_TOKEN remote not_iterable call req _
             Hsingle Hin).
  unfold outcome_reply. rewrite Hok. simpl.
  assert (search_envelope (received res)
          = VObj [("ok", VBool true); ("count", VNum 0);
                  ("results", VArr []); ("paging", VNull)]) as Henv.
  { destruct (received res) as [| | | | | |props]; try done.
    by destruct (Hshape props). }
  destruct call; try done; unfold success_reply; simpl; by rewrite Henv.
Qed.

(** *** The diagnostic route *)

Lemma diag_contacts_run q tr :
  let req := post_request "/crm/v3/objects/contacts/search" (diag_body q) in
  diag_contacts q tr
  = (inr match remote (map fst tr) req with
         | Rejects str =>
             {| code := 500; payload := failure_envelope (Raised str) |}
         | Responds res =>
             if ok res then
               {| code := 200;
                  payload :=
                    VObj [("ok", VBool true);
                          ("sample",
                           coalesce (length_of (member "results" (received res)))
                             (VNum 0));
                          ("results",
                           coalesce (member "results" (received res)) (VArr []))] |}
             else
               {| code := 500;
                  payload :=
                    failure_envelope
                      (Error ("HubSpot " +:+ Number_toString (status res)
                              +:+ " " +:+ text res)) |}
         end, tr ++ [(req, remote (map fst tr) req)]).
Proof.
  intros req. unfold Hubspot.diag_contacts, Hubspot.hsPOST, try_catch.
  unfold bind at 1. rewrite helper_run. fold req.
  destruct (remote (map fst tr) req) as [str|res]; [done|].
  by destruct (ok res).
Qed.

(** X18.  [/diag/contacts] always answers and issues exactly one search
    call: 200 with [{ok: true, sample, results}] when the remote answers
    2xx, [sample] being the number of results; 500 with
    [{ok: false, error}] when the remote answers another status or the
    call is rejected. *)
Theorem diag_contacts_replies q :
  let req := post_request "/crm/v3/objects/contacts/search" (diag_body q) in
  let run := diag_contacts q [] in
  run.2 = [(req, remote [] req)] ∧
  (∃ reply, run.1 = inr reply ∧
     (code reply = 200%Z ∨ code reply = 500%Z) ∧
     (code reply = 200%Z ↔ ∃ res, remote [] req = Responds res ∧ ok res = true)) ∧
  (∀ res results,
     remote [] req = Responds res → ok res = true →
     member "results" (received res) = VArr results →
     run.1 = inr {| code := 200;
                    payload := VObj [("ok", VBool true);
                                     ("sample", VNum (Z.of_nat (length results)));
                                     ("results", VArr results)] |}) ∧
  (∀ res,
     remote [] req = Responds res → ok res = false →
     run.1 = inr {| code := 500;
                    payload :=
                      VObj [("ok", VBool false);
                            ("error",
                             VStr ("Error: HubSpot "
                                   +:+ Number_toString (status res)
                                   +:+ " " +:+ text res))] |}) ∧
  (∀ str,
     remote [] req = Rejects str →
     run.1 = inr {| code := 500;
                    payload := VObj [("ok", VBool false);
                                     ("error", VStr str)] |}).
Proof.
  intros req run. unfold run. rewrite diag_contacts_run. cbv zeta.
  simpl map. fold req. split_and!.
  - done.
  - eexists. split; [done|].
    destruct (remote [] req) as [str|res]; simpl.
    + split; [by right|]. split; [done|]. by intros (res & [=] & _).
    + destruct (ok res) eqn:Hok; simpl.
      * split; [by left|]. split; [|done]. intros _. by exists res.
      * split; [by right|]. split; [done|].
        intros (res' & [= <-] & Hok'). congruence.
  - intros res results Hres Hok Hresults. rewrite Hres, Hok. simpl.
    by rewrite Hresults.
  - intros res Hres Hok. by rewrite Hres, Hok.
  - intros str Hres. by rewrite Hres.
Qed.

(** X19.  [/diag/contacts] searches for ["@gmail.com"] when the
    parameter [q] is missing or falsy (the empty string). *)
Theorem diag_contacts_default_query q tr :
  truthy q = false →
  diag_contacts q tr = diag_contacts (VStr "@gmail.com") tr.
Proof.
  intros Hq. unfold Hubspot.diag_contacts, diag_body, or_else.
  by rewrite Hq.
Qed.

(** *** The tools of [server.js] *)

(** X20.  Each tool of [server.js] issues exactly one search call; on a
    2xx JSON answer it replies with the parsed answer, unchanged, as a
    [json] item; a rejected call, a non-2xx status and a body that is not
    JSON are thrown out of the handler. *)
Theorem legacy_tools_pass_through :
  (∀ query properties limit,
     let req := Legacy.post_request HUBSPOT_TOKEN
                  "/crm/v3/objects/contacts/search"
                  (Legacy.contacts_search_body query properties limit) in
     Legacy.hubspot_contacts_search HUBSPOT_TOKEN remote invalid_json
       query properties limit []
     = (Legacy.outcome invalid_json (remote [] req), [(req, remote [] req)])) ∧
  (∀ stage limit,
     let req := Legacy.post_request HUBSPOT_TOKEN
                  "/crm/v3/objects/deals/search"
                  (Legacy.deals_search_body stage limit) in
     Legacy.hubspot_deals_search HUBSPOT_TOKEN remote invalid_json
       stage limit []
     = (Legacy.outcome invalid_json (remote [] req), [(req, remote [] req)])).
Proof.
  split.
  - intros query properties limit req.
    unfold Legacy.hubspot_contacts_search, bind.
    rewrite legacy_hsPOST_run. cbv zeta. simpl map. fold req.
    unfold Legacy.outcome.
    destruct (remote [] req) as [str|res]; [done|].
    destruct (ok res); [|done]. by destruct (json res).
  - intros stage limit req.
    unfold Legacy.hubspot_deals_search, bind.
    rewrite legacy_hsPOST_run. cbv zeta. simpl map. fold req.
    unfold Legacy.outcome.
    destruct (remote [] req) as [str|res]; [done|].
    destruct (ok res); [|done]. by destruct (json res).
Qed.

(** X21.  [hsGET] of [server.js] drops undefined values only.  It
    builds the request of the 1.2.0 [hsGET] for every query that holds
    neither [null] nor an empty string; where the 1.2.0 helper sends
    nothing for such a value, it sends [null] as the parameter ["null"]
    and an empty string as an empty parameter. *)
Theorem legacy_hsGET_keeps_empty_values path :
  (∀ query, Forall (λ kv, kv.2 ≠ QStr "" ∧ kv.2 ≠ QNull) query →
     Legacy.get_request HUBSPOT_TOKEN path query = get_request path query) ∧
  (∀ k, searchParams (Legacy.get_request HUBSPOT_TOKEN path [(k, QStr "")])
        = [(k, "")] ∧
        searchParams (get_request path [(k, QStr "")]) = []) ∧
  (∀ k, searchParams (Legacy.get_request HUBSPOT_TOKEN path [(k, QNull)])
        = [(k, "null")] ∧
        searchParams (get_request path [(k, QNull)]) = []) ∧
  (∀ k, searchParams (Legacy.get_request HUBSPOT_TOKEN path [(k, QUndefined)])
        = [] ∧
        searchParams (get_request path [(k, QUndefined)]) = []).
Proof.
  split; [|done].
  intros query Hquery. unfold Legacy.get_request, Hubspot.get_request.
  f_equal. generalize (@nil (string * string)) as acc.
  induction Hquery as [|[k v] query [Hv Hnull] _ IH]; intros acc; [done|].
  simpl. rewrite <- IH. f_equal.
  destruct v as [| |s|n]; simpl; [done|done| |done].
  destruct (String.eqb s "") eqn:E; [|done].
  apply String.eqb_eq in E. simpl in Hv. congruence.
Qed.

End HandlerEdges.

(** ** The further properties at sample inputs *)

Section EdgeInstances.

Import JS Net Hubspot Samples.

Local Abbreviation token := "pat-na1-sample".
Local Abbreviation spread_error := "TypeError: not iterable".

Lemma every_call_goes_to_hubspot_witness :
  let call := Paginate "deals" None (Some ["dealname"; "amount"]) None in
  let req :=
    {| url := "https://api.hubapi.com/crm/v3/objects/deals";
       searchParams := [("properties", "dealname,amount"); ("limit", "100")];
       method := GET;
       headers := [("Authorization", "Bearer pat-na1-sample")];
       body := None |} in
  (req, Responds no_results)
    ∈ (handler token (always no_results) spread_error call []).2 ∧
  to_hubspot token req.
Proof.
  intros call req.
  assert ((req, Responds no_results)
            ∈ (handler token (always no_results) spread_error call []).2)
    as Hin by (apply list_elem_of_singleton; reflexivity).
  split; [exact Hin|].
  exact (every_call_goes_to_hubspot token (always no_results) spread_error
           call req _ Hin).
Defined.

Lemma batch_read_upto_ninety_witness :
  let ids := ids_upto 3 in
  let req := batch_read_request token "contacts" [] ids in
  let run := handler token (always two_results) spread_error
               (Batch_read "contacts" ids None) [] in
  (0 < length ids <= 90)%nat ∧
  run.2 = [(req, Responds two_results)] ∧
  inputs_sent req = ["1"; "2"; "3"] ∧
  run.1 = inr (asText (VObj [("ok", VBool true);
                             ("results", VArr [VObj []; VObj []])])
                 (Some "batch_read")).
Proof.
  intros ids req run.
  assert (0 < length ids <= 90)%nat as Hlen by (vm_compute; lia).
  split; [exact Hlen|].
  exact (batch_read_upto_ninety token (always two_results) spread_error
           "contacts" ids None Hlen).
Defined.

Lemma batch_read_stops_at_failure_witness :
  let ids := ids_upto 181 in
  let run := handler token fails_after_first spread_error
               (Batch_read "contacts" ids None) [] in
  let req := batch_read_request token "contacts" [] (take 90 (drop 90 ids)) in
  run.2 !! 1%nat = Some (req, Responds server_error) ∧
  collected spread_error "contacts" (Responds server_error)
  = inl (Error "HubSpot batch contacts 500 oops") ∧
  2%nat = length run.2.
Proof.
  intros ids run req.
  assert (run.2 !! 1%nat = Some (req, Responds server_error)) as Hcall
    by (vm_compute; reflexivity).
  assert (collected spread_error "contacts" (Responds server_error)
          = inl (Error "HubSpot batch contacts 500 oops")) as Hfail
    by reflexivity.
  split_and!; [exact Hcall|exact Hfail|].
  exact (batch_read_stops_at_failure token fails_after_first spread_error
           "contacts" ids None 1 req _ _ Hcall Hfail).
Defined.

Lemma batch_read_results_not_iterable_witness :
  let ids := ids_upto 2 in
  let req := batch_read_request token "contacts" [] ids in
  let run := handler token (always results_object) spread_error
               (Batch_read "contacts" ids None) [] in
  (req, Responds results_object) ∈ run.2 ∧
  truthy (VObj []) = true ∧ iterate (VObj []) = None ∧
  run.1 = inr (asText (VObj [("ok", VBool false);
                             ("error", VStr "TypeError: not iterable")])
                 (Some "batch_read_error")).
Proof.
  intros ids req run.
  assert ((req, Responds results_object) ∈ run.2) as Hin
    by (apply list_elem_of_singleton; reflexivity).
  split_and!; [exact Hin|reflexivity|reflexivity|].
  exact (batch_read_results_not_iterable token (always results_object)
           spread_error "contacts" ids None req results_object
           (VObj [("results", VObj [])]) Hin eq_refl eq_refl eq_refl eq_refl).
Defined.

Lemma hsGET_keeps_defined_parameters_witness :
  let query := [("properties", QStr ""); ("limit", QNum 100);
                ("after", QUndefined); ("archived", QStr "false");
                ("associations", QNull)] in
  plain_path "/crm/v3/objects/deals" = true ∧
  NoDup (map fst query) ∧
  searchParams (get_request token "/crm/v3/objects/deals" query)
  = [("limit", "100"); ("archived", "false")].
Proof.
  intros query.
  assert (plain_path "/crm/v3/objects/deals" = true) as Hplain
    by (vm_compute; reflexivity).
  assert (NoDup (map fst query)) as Hkeys
    by (apply (bool_decide_unpack (NoDup (map fst query)));
        vm_compute; exact I).
  split_and!; [exact Hplain|exact Hkeys|].
  exact (proj1 (hsGET_keeps_defined_parameters token "/crm/v3/objects/deals"
                  query Hplain Hkeys)).
Defined.

Lemma passthrough_envelope_fields_witness :
  let call := Pipelines None in
  let run := handler token (always says_not_ok) spread_error call [] in
  is_passthrough call = true ∧
  ok says_not_ok = true ∧
  ∃ envelope,
    run.1 = inr (asText (VObj envelope) (Some "pipelines")) ∧
    obj_get "ok" envelope = Some (VBool false) ∧
    obj_get "results" envelope = Some (VArr []).
Proof.
  intros call run.
  assert (is_passthrough call = true) as Hpass by reflexivity.
  assert (∃ req, (req, Responds says_not_ok) ∈ run.2) as [req Hin].
  { eexists. apply list_elem_of_singleton. reflexivity. }
  destruct (passthrough_envelope_fields token (always says_not_ok) spread_error
              call req says_not_ok _ Hpass Hin eq_refl eq_refl)
    as (envelope & Hreply & Hok & Hfields).
  split_and!; [exact Hpass|reflexivity|].
  exists envelope. split_and!.
  - exact Hreply.
  - exact Hok.
  - exact (Hfields "results" ltac:(discriminate)).
Defined.

Lemma search_reply_without_object_witness :
  let call := Companies_search (Some "acme") None None in
  let run := handler token (always html_page) spread_error call [] in
  is_search call = true ∧
  ok html_page = true ∧
  (∀ props, received html_page ≠ VObj props) ∧
  run.1 = inr (asText (VObj [("ok", VBool true); ("count", VNum 0);
                             ("results", VArr []); ("paging", VNull)])
                 (Some "companies")).
Proof.
  intros call run.
  assert (is_search call = true) as Hsearch by reflexivity.
  assert (∀ props, received html_page ≠ VObj props) as Hshape
    by (intros props; discriminate).
  assert (∃ req, (req, Responds html_page) ∈ run.2) as [req Hin].
  { eexists. apply list_elem_of_singleton. reflexivity. }
  split_and!; [exact Hsearch|reflexivity|exact Hshape|].
  exact (search_reply_without_object token (always html_page) spread_error
           call req html_page Hsearch Hin eq_refl Hshape).
Defined.

Lemma diag_contacts_default_query_witness :
  truthy (VStr "") = false ∧
  diag_contacts token (always two_results) (VStr "") []
  = diag_contacts token (always two_results) (VStr "@gmail.com") [].
Proof.
  assert (truthy (VStr "") = false) as Hq by reflexivity.
  split; [exact Hq|].
  exact (diag_contacts_default_query token (always two_results)
           (VStr "") [] Hq).
Defined.

End EdgeInstances.
